(** * LaunchpadLedger: the Persistence Ledger device session

    A shallow embedding of [launchpadledger.js] (the compiled
    [LaunchpadLedger] class) together with the properties its
    specification states about it.

    - JavaScript strings are Rocq [string]s (UTF-8 bytes).
    - A thrown exception is a value of [Exception]; a synchronous function
      that may throw returns a [Result].
    - An [async] method is a [Promise]: a function from the history of
      requests already sent to the device to a [Result] and the extended
      history.  The history is kept when the method fails, so what was
      sent before a failure stays observable.
    - The vendor client ([ledger-cosmos-js]) is a record of response
      functions; each response may depend on everything the device was
      asked before, which covers a user who switches apps or locks the
      device between two requests. *)

From Stdlib Require Import List String Ascii Bool ZArith NArith Lia.
From Stdlib Require Import Strings.Byte.
From Stdlib Require Import Decimal DecimalString DecimalN DecimalFacts.
Import ListNotations.

Local Open Scope string_scope.
Local Open Scope list_scope.

(** ** Exceptions and results *)

(** [throw new Error(m)] and the engine's own [TypeError]. *)
Inductive Exception : Type :=
| Error (message : string)
| TypeError (message : string).


Inductive Result (A : Type) : Type :=
| Ok (value : A)
| Throw (exn : Exception).

Arguments Ok {A} value.
Arguments Throw {A} exn.

Definition is_ok {A} (r : Result A) : bool :=
  match r with
  | Ok _ => true
  | Throw _ => false
  end.

(** ** The device and the requests it receives *)

Inductive Request : Type :=
| ReqGetVersion
| ReqAppInfo
| ReqPublicKey (path : list Z)
| ReqSign (path : list Z) (message : string)
| ReqShowAddressAndPubKey (path : list Z) (hrp : string).

Definition History := list Request.

(** The two fields every response of the vendor client may carry. *)
Record ErrorResponse : Type := mkErrorResponse {
  error_message : option string;
  device_locked : option bool
}.

Record VersionResponse : Type := mkVersionResponse {
  version_status : ErrorResponse;
  major : N;
  minor : N;
  patch : N;
  test_mode : bool
}.

Record AppInfoResponse : Type := mkAppInfoResponse {
  appinfo_status : ErrorResponse;
  appName : string
}.

Record PublicKeyResponse : Type := mkPublicKeyResponse {
  publickey_status : ErrorResponse;
  compressed_pk : list byte
}.

Record SignResponse : Type := mkSignResponse {
  sign_status : ErrorResponse;
  signature : list byte
}.

Record AddressAndPublicKeyResponse : Type := mkAddressAndPublicKeyResponse {
  address_status : ErrorResponse;
  bech32_address : string;
  address_compressed_pk : list byte
}.

(** The vendor client bound to a transport.  Every method answers from the
    history of the requests sent before this one. *)
Record CosmosApp : Type := mkCosmosApp {
  getVersion : History -> VersionResponse;
  appInfo : History -> AppInfoResponse;
  publicKey : History -> list Z -> PublicKeyResponse;
  sign_device : History -> list Z -> string -> SignResponse;
  showAddressAndPubKey : History -> list Z -> string -> AddressAndPublicKeyResponse
}.

(** ** Promises: state (the request history) and failure *)

Definition Promise (A : Type) : Type := History -> Result A * History.

Definition resolve {A} (a : A) : Promise A := fun h => (Ok a, h).

Definition reject {A} (e : Exception) : Promise A := fun h => (Throw e, h).

Definition then_ {A B} (p : Promise A) (k : A -> Promise B) : Promise B :=
  fun h =>
    match p h with
    | (Ok a, h') => k a h'
    | (Throw e, h') => (Throw e, h')
    end.

(** A synchronous computation inside an [async] body. *)
Definition lift {A} (r : Result A) : Promise A := fun h => (r, h).

(** One round trip: the request is appended to the history and the device
    answers from the history before it. *)
Definition request {A} (q : Request) (answer : History -> A) : Promise A :=
  fun h => (Ok (answer h), h ++ [q]).

Declare Scope promise_scope.
Delimit Scope promise_scope with promise.
Notation "x <- p ;; k" := (then_ p (fun x => k))
  (at level 61, p at next level, right associativity) : promise_scope.
Notation "p ;; k" := (then_ p (fun _ => k))
  (at level 61, right associativity) : promise_scope.
Local Open Scope promise_scope.

(** ** Strings *)

(** The letters A to Z. *)
Definition is_upper (c : ascii) : bool :=
  let n := nat_of_ascii c in (65 <=? n)%nat && (n <=? 90)%nat.

Definition toLowerCase_char (c : ascii) : ascii :=
  if is_upper c then ascii_of_nat (nat_of_ascii c + 32) else c.

(** [String.prototype.toLowerCase], on the letters A to Z.  The bytes of
    a character outside ASCII are all above 127 and stay as they are.  The
    source lowers such characters too, but never into a letter of
    "dashboard" or "persistence" (the one that becomes an ASCII letter is
    the Kelvin sign, which becomes k), so the two comparisons made with the
    result come out as in the source. *)
Fixpoint toLowerCase (s : string) : string :=
  match s with
  | EmptyString => EmptyString
  | String c r => String (toLowerCase_char c) (toLowerCase r)
  end.

(** The rendering of a non-negative integer in a template literal. *)
Definition number_toString (n : N) : string :=
  NilEmpty.string_of_uint (N.to_uint n).

(** ** Derivation paths *)

(** Modelled from the spec: the [Slip10RawIndex] class of [@cosmjs/crypto]
    is not part of the sources.  A segment is an unsigned 32-bit number;
    a hardened segment stores its index plus 2^31. *)
Record Slip10RawIndex : Type := mkSlip10RawIndex { toNumber : Z }.

Definition hardened (hardenedIndex : Z) : Slip10RawIndex :=
  mkSlip10RawIndex (hardenedIndex + 2 ^ 31).

Definition normal (normalIndex : Z) : Slip10RawIndex :=
  mkSlip10RawIndex normalIndex.

Definition isHardened (n : Slip10RawIndex) : bool := (2 ^ 31 <=? toNumber n)%Z.

Definition HdPath := list Slip10RawIndex.

Definition is_digit (c : ascii) : bool :=
  let n := nat_of_ascii c in (48 <=? n)%nat && (n <=? 57)%nat.

Definition syntax_error : Exception :=
  Error "Syntax error while reading path component".

(** One matched component: its digits and whether an apostrophe follows. *)
Definition push_component (numberString : string) (apostrophe : bool)
    (out : HdPath) : Result HdPath :=
  match NilEmpty.uint_of_string numberString with
  | None => Throw syntax_error
  | Some d =>
      let value := Z.of_N (N.of_uint d) in
      if (2 ^ 31 <=? value)%Z
      then Throw (Error "Component value too high. Must not exceed 2**31-1.")
      else Ok (out ++ [if apostrophe then hardened value else normal value])
  end.

(** The component loop of the parser, one character at a time: [cur] is
    [None] between two components and holds the digits read so far inside
    one. *)
Fixpoint stringToPath_loop (rest : string) (cur : option string)
    (out : HdPath) : Result HdPath :=
  match rest with
  | EmptyString =>
      match cur with
      | None => Ok out
      | Some EmptyString => Throw syntax_error
      | Some numberString => push_component numberString false out
      end
  | String c r =>
      match cur with
      | None =>
          if Ascii.eqb c "/" then stringToPath_loop r (Some EmptyString) out
          else Throw syntax_error
      | Some numberString =>
          if is_digit c
          then stringToPath_loop r (Some (numberString ++ String c EmptyString)%string) out
          else
            match numberString with
            | EmptyString => Throw syntax_error
            | _ =>
                if Ascii.eqb c "'"
                then
                  match push_component numberString true out with
                  | Ok out' => stringToPath_loop r None out'
                  | Throw e => Throw e
                  end
                else
                  match push_component numberString false out with
                  | Ok out' =>
                      if Ascii.eqb c "/"
                      then stringToPath_loop r (Some EmptyString) out'
                      else Throw syntax_error
                  | Throw e => Throw e
                  end
            end
      end
  end.

(** Modelled from the spec: the HD-path parser [stringToPath] of
    [@cosmjs/crypto] is not part of the sources.  It reads
    [m/44'/<coinType>'/<account>'/0/<index>]: after the leading [m], a
    sequence of [/<digits>] components, each optionally followed by an
    apostrophe that marks it hardened. *)
Definition stringToPath (input : string) : Result HdPath :=
  match input with
  | String "m" rest => stringToPath_loop rest None []
  | _ => Throw (Error "Path string must start with 'm'")
  end.

(** A parameter with a default value: [undefined] takes the default. *)
Definition default_to {A} (d : A) (o : option A) : A :=
  match o with
  | Some a => a
  | None => d
  end.

Definition makeHdPath (accountNumber addressIndex coinType : option string)
    : Result HdPath :=
  let accountNumber := default_to "0" accountNumber in
  let addressIndex := default_to "0" addressIndex in
  let coinType := default_to "750" coinType in
  stringToPath ("m/44'/" ++ coinType ++ "'/" ++ accountNumber ++ "'/0/" ++ addressIndex)%string.

Definition unharden (hdPath : HdPath) : list Z :=
  map (fun n => if isHardened n then (toNumber n - 2 ^ 31)%Z else toNumber n) hdPath.

(** [const persistenceHdPath = makeHdPath()], evaluated when the module
    is loaded; the call does not throw (see [makeHdPath_default]). *)
Definition persistenceHdPath : HdPath :=
  match makeHdPath None None None with
  | Ok p => p
  | Throw _ => []
  end.

Definition persistenceBech32Prefix : string := "persistence".

Definition requiredPersistenceAppVersion : string := "1.0.0".

(** ** Semantic versions *)

(** The pieces of a string between its dots. *)
Fixpoint split_dot (s : string) : list string :=
  match s with
  | EmptyString => [EmptyString]
  | String c r =>
      if Ascii.eqb c "."
      then EmptyString :: split_dot r
      else
        match split_dot r with
        | x :: xs => String c x :: xs
        | [] => [String c EmptyString]
        end
  end.

(** A numeric identifier: [0], or digits that do not start with [0]. *)
Definition numeric_identifier (s : string) : option N :=
  match s with
  | EmptyString => None
  | String "0" EmptyString => Some 0%N
  | String "0" _ => None
  | _ => option_map N.of_uint (NilEmpty.uint_of_string s)
  end.

Definition semver_parse (version : string) : option (N * N * N) :=
  match split_dot version with
  | [a; b; c] =>
      match numeric_identifier a, numeric_identifier b, numeric_identifier c with
      | Some x, Some y, Some z => Some (x, y, z)
      | _, _, _ => None
      end
  | _ => None
  end.

(** Precedence: major, then minor, then patch, each compared as a number. *)
Definition semver_compare (a b : N * N * N) : comparison :=
  let '(a1, a2, a3) := a in
  let '(b1, b2, b3) := b in
  match (a1 ?= b1)%N with
  | Eq =>
      match (a2 ?= b2)%N with
      | Eq => (a3 ?= b3)%N
      | c => c
      end
  | c => c
  end.

(** Modelled from the spec: [gte] of the [semver] package is not part of
    the sources.  The comparison is the standard major.minor.patch
    precedence; a string that is not a version raises a [TypeError].
    Only the [MAJOR.MINOR.PATCH] core of the grammar is modelled (no
    pre-release or build suffix), which is all that [getCosmosAppVersion]
    produces and all that [requiredPersistenceAppVersion] is. *)
Definition semver_gte (a b : string) : Result bool :=
  match semver_parse a, semver_parse b with
  | Some va, Some vb =>
      Ok (match semver_compare va vb with Lt => false | _ => true end)
  | None, _ => Throw (TypeError ("Invalid Version: " ++ a))
  | _, None => Throw (TypeError ("Invalid Version: " ++ b))
  end.

(** ** The session *)

Record LaunchpadLedgerOptions : Type := mkLaunchpadLedgerOptions {
  opt_hdPaths : option (list HdPath);
  opt_prefix : option string;
  opt_testModeAllowed : option bool
}.

Record LaunchpadLedger : Type := mkLaunchpadLedger {
  testModeAllowed : bool;
  hdPaths : list HdPath;
  prefix : string;
  app : CosmosApp
}.

(** [constructor(transport, options = {})].  The transport is abstract;
    the client built on it is what the session talks to, so the model
    receives the client's behaviour in its place. *)
Definition constructor (transport : CosmosApp)
    (options : option LaunchpadLedgerOptions) : LaunchpadLedger :=
  let options := default_to (mkLaunchpadLedgerOptions None None None) options in
  let defaultOptions :=
    {| testModeAllowed := false;
       hdPaths := [persistenceHdPath];
       prefix := persistenceBech32Prefix;
       app := transport |} in
  {| testModeAllowed :=
       default_to (testModeAllowed defaultOptions) (opt_testModeAllowed options);
     hdPaths := default_to (hdPaths defaultOptions) (opt_hdPaths options);
     prefix := default_to (prefix defaultOptions) (opt_prefix options);
     app := transport |}.

(** [handleLedgerErrors({error_message = "No errors", device_locked = false},
    rejectionMessage = "Request was rejected by the user")]. *)
Definition handleLedgerErrors (response : ErrorResponse)
    (rejectionMessage : option string) : Result unit :=
  let errorMessage := default_to "No errors" (error_message response) in
  let deviceLocked := default_to false (device_locked response) in
  let rejectionMessage :=
    default_to "Request was rejected by the user" rejectionMessage in
  if deviceLocked then Throw (Error "Ledger’s screensaver mode is on")
  else if errorMessage =? "U2F: Timeout"
  then Throw (Error "Connection timed out. Please try again.")
  else if errorMessage =? "Persistence app does not seem to be open"
  then Throw (Error "Persistence app is not open")
  else if errorMessage =? "Command not allowed"
  then Throw (Error "Transaction rejected")
  else if errorMessage =? "Transaction rejected"
  then Throw (Error rejectionMessage)
  else if errorMessage =? "Unknown Status Code: 26628"
  then Throw (Error "Ledger’s screensaver mode is on")
  else if errorMessage =? "Instruction not supported"
  then Throw (Error ("Your Persistence Ledger App is not up to date. Please update to version "
                     ++ requiredPersistenceAppVersion ++ "."))
  else if errorMessage =? "No errors"
  then Ok tt
  else Throw (Error ("Ledger Native Error: " ++ errorMessage)).

Definition verifyAppMode (this : LaunchpadLedger) (testMode : bool) : Result unit :=
  if testMode && negb (testModeAllowed this)
  then Throw (Error "DANGER: The Persistence Ledger app is in test mode and should not be used on mainnet!")
  else Ok tt.

(** In every method below, [assert(this.app, ...)] cannot fail: the
    constructor always sets [this.app]. *)

Definition getOpenAppName (this : LaunchpadLedger) : Promise string :=
  response <- request ReqAppInfo (appInfo (app this)) ;;
  lift (handleLedgerErrors (appinfo_status response) None) ;;
  resolve (appName response).

Definition verifyCosmosAppIsOpen (this : LaunchpadLedger) : Promise unit :=
  appName <- getOpenAppName this ;;
  if toLowerCase appName =? "dashboard"
  then reject (Error "Please open the Persistence Ledger app on your Ledger device.")
  else if negb (toLowerCase appName =? "persistence")
  then reject (Error ("Please close " ++ appName
                      ++ " and open the Persistence Ledger app on your Ledger device."))
  else resolve tt.

Definition getCosmosAppVersion (this : LaunchpadLedger) : Promise string :=
  verifyCosmosAppIsOpen this ;;
  response <- request ReqGetVersion (getVersion (app this)) ;;
  lift (handleLedgerErrors (version_status response) None) ;;
  lift (verifyAppMode this (test_mode response)) ;;
  resolve (number_toString (major response) ++ "."
           ++ number_toString (minor response) ++ "."
           ++ number_toString (patch response))%string.

Definition verifyAppVersion (this : LaunchpadLedger) : Promise unit :=
  version <- getCosmosAppVersion this ;;
  ok <- lift (semver_gte version requiredPersistenceAppVersion) ;;
  if negb ok
  then reject (Error "Outdated version: Please update Persistence Ledger App to the latest version.")
  else resolve tt.

Definition verifyDeviceIsReady (this : LaunchpadLedger) : Promise unit :=
  verifyAppVersion this ;;
  verifyCosmosAppIsOpen this.

(** [hdPath || this.hdPaths[0]]: an array is truthy even when empty, so a
    given path is always used; without one the first configured path is
    taken, which is [undefined] when none is configured. *)
Definition hdPathToUse (this : LaunchpadLedger) (hdPath : option HdPath)
    : option HdPath :=
  match hdPath with
  | Some p => Some p
  | None => nth_error (hdPaths this) 0
  end.

(** [unharden] applied to a value that may be [undefined]. *)
Definition unharden_arg (hdPath : option HdPath) : Result (list Z) :=
  match hdPath with
  | Some p => Ok (unharden p)
  | None => Throw (TypeError "Cannot read properties of undefined (reading 'map')")
  end.

Definition getPubkey (this : LaunchpadLedger) (hdPath : option HdPath)
    : Promise (list byte) :=
  verifyDeviceIsReady this ;;
  path <- lift (unharden_arg (hdPathToUse this hdPath)) ;;
  response <- request (ReqPublicKey path) (fun h => publicKey (app this) h path) ;;
  lift (handleLedgerErrors (publickey_status response) None) ;;
  resolve (compressed_pk response).

(** [this.hdPaths.reduce((promise, hdPath) => promise.then(async (pubkeys)
    => [...pubkeys, await this.getPubkey(hdPath)]), Promise.resolve([]))]. *)
Definition getPubkeys (this : LaunchpadLedger) : Promise (list (list byte)) :=
  fold_left
    (fun promise hdPath =>
       pubkeys <- promise ;;
       pubkey <- getPubkey this (Some hdPath) ;;
       resolve (pubkeys ++ [pubkey]))
    (hdPaths this) (resolve []).

Section Collaborators.

(** Pure routines of other packages, used as they are: UTF-8 decoding
    ([@cosmjs/encoding]), DER decoding followed by the fixed-length
    form ([@cosmjs/crypto]) and the vendor's static bech32 encoder.
    Each may throw. *)
Variable fromUtf8 : list byte -> Result string.
Variable fromDer_toFixedLength : list byte -> Result (list byte).
Variable getBech32FromPK : string -> list byte -> Result string.

(** [pubkey || (await this.getPubkey())]: a byte array is truthy. *)
Definition getCosmosAddress (this : LaunchpadLedger)
    (pubkey : option (list byte)) : Promise string :=
  pubkeyToUse <-
    match pubkey with
    | Some pk => resolve pk
    | None => getPubkey this None
    end ;;
  lift (getBech32FromPK (prefix this) pubkeyToUse).

Definition sign (this : LaunchpadLedger) (message : list byte)
    (hdPath : option HdPath) : Promise (list byte) :=
  verifyDeviceIsReady this ;;
  path <- lift (unharden_arg (hdPathToUse this hdPath)) ;;
  text <- lift (fromUtf8 message) ;;
  response <- request (ReqSign path text)
                (fun h => sign_device (app this) h path text) ;;
  lift (handleLedgerErrors (sign_status response)
          (Some "Transaction signing request was rejected by the user")) ;;
  lift (fromDer_toFixedLength (signature response)).

End Collaborators.

Definition verifyAddress (this : LaunchpadLedger) (hdPath : HdPath)
    : Promise AddressAndPublicKeyResponse :=
  verifyDeviceIsReady this ;;
  let path := unharden hdPath in
  response <- request (ReqShowAddressAndPubKey path "persistence")
                (fun h => showAddressAndPubKey (app this) h path "persistence") ;;
  lift (handleLedgerErrors (address_status response) None) ;;
  resolve response.

(** ** The failure kinds of the specification

    The source throws plain [Error]s; a kind is the message the source
    throws for it. *)
Module Failure.

Definition DeviceLocked : Exception := Error "Ledger’s screensaver mode is on".

Definition ConnectionTimeout : Exception :=
  Error "Connection timed out. Please try again.".

Definition AppNotOpen : Exception := Error "Persistence app is not open".

Definition TransactionRejected : Exception := Error "Transaction rejected".

Definition UserRejected (rejectionMessage : string) : Exception :=
  Error rejectionMessage.

(** The device does not know the instruction; the message names the
    required minimum version. *)
Definition OutdatedApp_instruction : Exception :=
  Error "Your Persistence Ledger App is not up to date. Please update to version 1.0.0.".

(** The reported version is below the required minimum. *)
Definition OutdatedApp : Exception :=
  Error "Outdated version: Please update Persistence Ledger App to the latest version.".

Definition TestModeRejected : Exception :=
  Error "DANGER: The Persistence Ledger app is in test mode and should not be used on mainnet!".

Definition WrongScreen : Exception :=
  Error "Please open the Persistence Ledger app on your Ledger device.".

Definition WrongAppOpen (openApp : string) : Exception :=
  Error ("Please close " ++ openApp
         ++ " and open the Persistence Ledger app on your Ledger device.").

Definition UnknownDeviceError (raw : string) : Exception :=
  Error ("Ledger Native Error: " ++ raw).

End Failure.

(** The rows of the error table that match an error text, in the
    specification's words: error text and resulting failure. *)
Definition error_table (rejectionMessage : string) : list (string * Exception) :=
  [ ("U2F: Timeout", Failure.ConnectionTimeout);
    ("Persistence app does not seem to be open", Failure.AppNotOpen);
    ("Command not allowed", Failure.TransactionRejected);
    ("Transaction rejected", Failure.UserRejected rejectionMessage);
    ("Unknown Status Code: 26628", Failure.DeviceLocked);
    ("Instruction not supported", Failure.OutdatedApp_instruction) ].

(** The rejection message in force: the caller's, or the generic one. *)
Definition rejection_in_force (rejectionMessage : option string) : string :=
  default_to "Request was rejected by the user" rejectionMessage.

(** ** Notions used to state the properties *)

(** The requests of the gate itself: none of them produces data. *)
Definition is_gate_request (q : Request) : bool :=
  match q with
  | ReqGetVersion | ReqAppInfo => true
  | _ => false
  end.

(** The dotted triple that [getCosmosAppVersion] returns. *)
Definition version_string (vmajor vminor vpatch : N) : string :=
  (number_toString vmajor ++ "." ++ number_toString vminor ++ "."
   ++ number_toString vpatch)%string.

(** No character of the string is a dot. *)
Fixpoint no_dot (s : string) : Prop :=
  match s with
  | EmptyString => True
  | String c r => c <> "."%char /\ no_dot r
  end.

(** Standard precedence, in the specification's words: the first of
    major, minor, patch that differs decides. *)
Definition precedes (v w : N * N * N) : Prop :=
  let '(a1, a2, a3) := v in
  let '(b1, b2, b3) := w in
  (a1 < b1 \/ (a1 = b1 /\ (a2 < b2 \/ (a2 = b2 /\ a3 < b3))))%N.

(** [u] is an upper-case letter and [l] the same letter in lower case. *)
Definition case_pair (u l : ascii) : Prop :=
  is_upper u = true /\ nat_of_ascii l = (nat_of_ascii u + 32)%nat.

(** The same character, or the same letter in the other case. *)
Definition same_letter (a b : ascii) : Prop :=
  a = b \/ case_pair a b \/ case_pair b a.

(** [casing_of s t]: [t] is [s] up to the case of its letters. *)
Inductive casing_of : string -> string -> Prop :=
| casing_empty : casing_of EmptyString EmptyString
| casing_letter a b s t :
    same_letter a b -> casing_of s t -> casing_of (String a s) (String b t).

(** [op] runs the full gate first, from whatever history it is called in:
    when the gate fails, [op] fails the same way having sent gate requests
    only; when it passes, after its three requests, [op] sends at most one
    more request. *)
Definition gated {A} (this : LaunchpadLedger) (op : Promise A) : Prop :=
  forall h : History,
    match verifyDeviceIsReady this h with
    | (Throw e, hg) =>
        op h = (Throw e, hg)
        /\ exists tg, hg = h ++ ReqAppInfo :: tg /\ forallb is_gate_request tg = true
    | (Ok _, hg) =>
        hg = h ++ [ReqAppInfo; ReqGetVersion; ReqAppInfo]
        /\ exists t, snd (op h) = hg ++ t /\ (List.length t <= 1)%nat
    end.

(** The batch retrieval in the specification's words: one [getPubkey] per
    path, in order, each awaited before the next; the first failure is
    the failure of the whole. *)
Fixpoint sequential_getPubkeys (this : LaunchpadLedger) (paths : list HdPath)
    : Promise (list (list byte)) :=
  match paths with
  | [] => resolve []
  | hdPath :: rest =>
      pubkey <- getPubkey this (Some hdPath) ;;
      pubkeys <- sequential_getPubkeys this rest ;;
      resolve (pubkey :: pubkeys)
  end.

(** A run of successful key requests, one per path, each starting from
    the history the previous one left. *)
Inductive keys_in_order (this : LaunchpadLedger)
    : History -> list HdPath -> list (list byte) -> History -> Prop :=
| keys_none h : keys_in_order this h [] [] h
| keys_next h hdPath pubkey h1 rest pubkeys h2 :
    getPubkey this (Some hdPath) h = (Ok pubkey, h1) ->
    keys_in_order this h1 rest pubkeys h2 ->
    keys_in_order this h (hdPath :: rest) (pubkey :: pubkeys) h2.

(** The requests of one successful [getPubkey]. *)
Definition key_round (hdPath : HdPath) : list Request :=
  [ReqAppInfo; ReqGetVersion; ReqAppInfo; ReqPublicKey (unharden hdPath)].

(** The key requests among the requests sent. *)
Definition is_key_request (q : Request) : bool :=
  match q with
  | ReqPublicKey _ => true
  | _ => false
  end.

(** A path described by its segments: whether each is hardened, and its
    index. *)
Definition path_of (segments : list (bool * Z)) : HdPath :=
  map (fun s : bool * Z => if fst s then hardened (snd s) else normal (snd s))
    segments.

(** ** Simulated devices, for concrete runs *)

Definition no_errors : ErrorResponse := mkErrorResponse (Some "No errors") None.

Definition sample_pk : list byte := [x02; x1f; xa3].

(** A key that shows which path it was asked for. *)
Definition key_of_path (path : list Z) : list byte :=
  x02 :: map (fun z => default_to x00 (Byte.of_N (Z.to_N z mod 256))) path.

(** A device that runs app [name] at version [v] and answers key and
    signing requests with the given status. *)
Definition simulator (name : string) (v : N * N * N) (testMode : bool)
    (keyStatus : list Z -> ErrorResponse) (signStatus : ErrorResponse) : CosmosApp :=
  let '(vmajor, vminor, vpatch) := v in
  {| getVersion := fun _ => mkVersionResponse no_errors vmajor vminor vpatch testMode;
     appInfo := fun _ => mkAppInfoResponse no_errors name;
     publicKey := fun _ path =>
       mkPublicKeyResponse (keyStatus path) (key_of_path path);
     sign_device := fun _ _ _ => mkSignResponse signStatus [x30; x06];
     showAddressAndPubKey := fun _ _ hrp =>
       mkAddressAndPublicKeyResponse no_errors hrp sample_pk |}.

(** A device showing [name]: an app, or the dashboard. *)
Definition showing (name : string) : CosmosApp :=
  simulator name (1, 2, 0)%N false (fun _ => no_errors) no_errors.

(** The Persistence app at version [v]. *)
Definition persistence_at (v : N * N * N) : CosmosApp :=
  simulator "Persistence" v false (fun _ => no_errors) no_errors.

(** A development build of the app, in test mode. *)
Definition persistence_test_build : CosmosApp :=
  simulator "Persistence" (1, 2, 0)%N true (fun _ => no_errors) no_errors.

(** A device on which the user leaves the app for the dashboard after the
    first four requests. *)
Definition app_then_dashboard : CosmosApp :=
  {| getVersion := fun _ => mkVersionResponse no_errors 1 2 0 false;
     appInfo := fun h =>
       mkAppInfoResponse no_errors
         (if (List.length h <? 4)%nat then "Persistence" else "Dashboard");
     publicKey := fun _ path => mkPublicKeyResponse no_errors (key_of_path path);
     sign_device := fun _ _ _ => mkSignResponse no_errors [x30; x06];
     showAddressAndPubKey := fun _ _ hrp =>
       mkAddressAndPublicKeyResponse no_errors hrp sample_pk |}.

(** A device whose screen is locked while the user rejects a request. *)
Definition locked_and_rejected : ErrorResponse :=
  mkErrorResponse (Some "Transaction rejected") (Some true).


(** Two accounts, and a device that times out on the second. *)
Definition second_account : HdPath :=
  [hardened 44; hardened 750; hardened 1; normal 0; normal 0].

Definition two_accounts : LaunchpadLedgerOptions :=
  mkLaunchpadLedgerOptions (Some [persistenceHdPath; second_account]) None None.

Definition times_out_on_second : CosmosApp :=
  simulator "Persistence" (1, 2, 0)%N false
    (fun path => if (nth 2 path 0 =? 1)%Z
                 then mkErrorResponse (Some "U2F: Timeout") None
                 else no_errors)
    no_errors.

(** A stand-in for the vendor's encoder: the prefix and the key length. *)
Definition toy_bech32 (hrp : string) (pk : list byte) : Result string :=
  Ok (hrp ++ "1" ++ number_toString (N.of_nat (List.length pk)))%string.

(** Stand-ins for the decoders. *)
Definition toy_fromUtf8 (message : list byte) : Result string :=
  Ok (string_of_list_byte message).

Definition toy_fromDer (der : list byte) : Result (list byte) := Ok der.

(** ** The conditions of the gate *)

(** The device answers the open-app query at [h] without error and names
    the Persistence app, in any letter case. *)
Definition app_is_persistence (this : LaunchpadLedger) (h : History) : Prop :=
  handleLedgerErrors (appinfo_status (appInfo (app this) h)) None = Ok tt
  /\ toLowerCase (appName (appInfo (app this) h)) = "persistence".

(** The device answers the version query at [h] without error, is not in
    a test mode the session refuses, and reports major version 1 or
    more. *)
Definition version_is_accepted (this : LaunchpadLedger) (h : History) : Prop :=
  handleLedgerErrors (version_status (getVersion (app this) h)) None = Ok tt
  /\ (test_mode (getVersion (app this) h) = false \/ testModeAllowed this = true)
  /\ (1 <= major (getVersion (app this) h))%N.

(** The three answers the gate needs, each asked after the previous
    request. *)
Definition gate_conditions (this : LaunchpadLedger) (h : History) : Prop :=
  app_is_persistence this h
  /\ version_is_accepted this (h ++ [ReqAppInfo])
  /\ app_is_persistence this (h ++ [ReqAppInfo; ReqGetVersion]).

(** The requests of a passing gate. *)
Definition gate_round : list Request := [ReqAppInfo; ReqGetVersion; ReqAppInfo].

(** Every character of the string is a decimal digit. *)
Fixpoint all_digits (s : string) : Prop :=
  match s with
  | EmptyString => True
  | String c r => is_digit c = true /\ all_digits r
  end.

(** A segment that fits in 32 bits. *)
Definition is_uint32 (n : Slip10RawIndex) : Prop :=
  (0 <= toNumber n < 2 ^ 32)%Z.

(** A device on which the user rejects every key request. *)
Definition rejecting_keys : CosmosApp :=
  simulator "Persistence" (1, 2, 0)%N false
    (fun _ => mkErrorResponse (Some "Transaction rejected") None) no_errors.

(** A decoder that rejects every message. *)
Definition failing_fromUtf8 (message : list byte) : Result string :=
  Throw (Error "Invalid UTF8 string").

(** A session with no configured path. *)
Definition no_paths : LaunchpadLedgerOptions :=
  mkLaunchpadLedgerOptions (Some []) None None.

(** * Properties *)

(** ** Promises *)

Lemma then_ok {A B} (p : Promise A) (k : A -> Promise B) h a h' :
  p h = (Ok a, h') -> then_ p k h = k a h'.
Proof. intros E. unfold then_. now rewrite E. Qed.

Lemma then_throw {A B} (p : Promise A) (k : A -> Promise B) h e h' :
  p h = (Throw e, h') -> then_ p k h = (Throw e, h').
Proof. intros E. unfold then_. now rewrite E. Qed.

Lemma then_assoc {A B C} (p : Promise A) (k : A -> Promise B) (k' : B -> Promise C) h :
  then_ (then_ p k) k' h = then_ p (fun a => then_ (k a) k') h.
Proof. unfold then_. destruct (p h) as [[a|e] h']; reflexivity. Qed.

(** ** Error translation *)

Ltac case_strings :=
  repeat match goal with
         | |- context [String.eqb ?a ?b] => destruct (String.eqb_spec a b)
         end.

Lemma handleLedgerErrors_locked response rejectionMessage :
  device_locked response = Some true ->
  handleLedgerErrors response rejectionMessage = Throw Failure.DeviceLocked.
Proof. intros L. unfold handleLedgerErrors. rewrite L. reflexivity. Qed.

Lemma handleLedgerErrors_unlocked response :
  device_locked response <> Some true ->
  default_to false (device_locked response) = false.
Proof. destruct (device_locked response) as [[|]|]; simpl; congruence. Qed.

(** One row of the table, for a response whose locked flag is not set. *)
Lemma handleLedgerErrors_row response rejectionMessage text e :
  device_locked response <> Some true ->
  error_message response = Some text ->
  In (text, e) (error_table (rejection_in_force rejectionMessage)) ->
  handleLedgerErrors response rejectionMessage = Throw e.
Proof.
  intros L E I. unfold handleLedgerErrors.
  rewrite (handleLedgerErrors_unlocked _ L), E.
  simpl in I.
  repeat (destruct I as [I|I]; [injection I as <- <-; reflexivity|]).
  contradiction.
Qed.

(** C1. Error translation follows the table, device-locked test first:
    it succeeds exactly when the locked flag is not set and the error text
    is "No errors" or absent; a set locked flag gives [DeviceLocked]
    whatever the error text; otherwise each listed text gives its listed
    failure, and any other text gives [UnknownDeviceError] with the raw
    text in the message. *)
Theorem handleLedgerErrors_table (response : ErrorResponse)
    (rejectionMessage : option string) :
  (handleLedgerErrors response rejectionMessage = Ok tt <->
     device_locked response <> Some true /\
     (error_message response = None \/ error_message response = Some "No errors"))
  /\ (device_locked response = Some true ->
      handleLedgerErrors response rejectionMessage = Throw Failure.DeviceLocked)
  /\ (forall text e,
        device_locked response <> Some true ->
        error_message response = Some text ->
        In (text, e) (error_table (rejection_in_force rejectionMessage)) ->
        handleLedgerErrors response rejectionMessage = Throw e)
  /\ (forall text,
        device_locked response <> Some true ->
        error_message response = Some text ->
        text <> "No errors" ->
        (forall e, ~ In (text, e) (error_table (rejection_in_force rejectionMessage))) ->
        handleLedgerErrors response rejectionMessage
        = Throw (Failure.UnknownDeviceError text)).
Proof.
  split; [|split; [|split]].
  - split.
    + intros H. split.
      * intros L. rewrite (handleLedgerErrors_locked _ _ L) in H. discriminate.
      * unfold handleLedgerErrors in H.
        destruct (default_to false (device_locked response)); [discriminate|].
        destruct (error_message response) as [text|]; [right|now left].
        simpl in H. revert H. case_strings; try discriminate. now subst.
    + intros [L [E|E]]; unfold handleLedgerErrors;
        rewrite (handleLedgerErrors_unlocked _ L), E; reflexivity.
  - apply handleLedgerErrors_locked.
  - intros text e. apply handleLedgerErrors_row.
  - intros text L E N I. unfold handleLedgerErrors.
    rewrite (handleLedgerErrors_unlocked _ L), E. simpl.
    case_strings; try reflexivity; subst; try contradiction;
      exfalso; eapply I; simpl; eauto 10.
Qed.

Lemma handleLedgerErrors_table_witness :
  handleLedgerErrors (mkErrorResponse (Some "U2F: Timeout") (Some true)) None
  = Throw Failure.DeviceLocked
  /\ handleLedgerErrors (mkErrorResponse (Some "Command not allowed") None) None
     = Throw Failure.TransactionRejected
  /\ handleLedgerErrors (mkErrorResponse (Some "0x6e00") (Some false)) None
     = Throw (Failure.UnknownDeviceError "0x6e00")
  /\ handleLedgerErrors (mkErrorResponse None None) None = Ok tt.
Proof.
  split; [|split; [|split]].
  - apply (handleLedgerErrors_table
             (mkErrorResponse (Some "U2F: Timeout") (Some true)) None).
    reflexivity.
  - apply (proj1 (proj2 (proj2 (handleLedgerErrors_table
             (mkErrorResponse (Some "Command not allowed") None) None)))
             "Command not allowed").
    + discriminate.
    + reflexivity.
    + simpl. auto.
  - apply (proj2 (proj2 (proj2 (handleLedgerErrors_table
             (mkErrorResponse (Some "0x6e00") (Some false)) None)))).
    + discriminate.
    + reflexivity.
    + discriminate.
    + intros e I. simpl in I.
      repeat (destruct I as [I|I]; [discriminate|]). contradiction.
  - apply (proj1 (handleLedgerErrors_table (mkErrorResponse None None) None)).
    split; [discriminate | now left].
Defined.

(** ** The compatibility gate, step by step *)

(** Unfolds a method to its promise combinators. *)
Ltac unfold_promise :=
  unfold then_, request, lift, resolve, reject in *.

Lemma getOpenAppName_run this h :
  getOpenAppName this h =
  (match handleLedgerErrors (appinfo_status (appInfo (app this) h)) None with
   | Ok _ => Ok (appName (appInfo (app this) h))
   | Throw e => Throw e
   end, h ++ [ReqAppInfo]).
Proof.
  unfold getOpenAppName. unfold_promise.
  destruct (handleLedgerErrors _ _); reflexivity.
Qed.

Lemma verifyCosmosAppIsOpen_history this h :
  snd (verifyCosmosAppIsOpen this h) = h ++ [ReqAppInfo].
Proof.
  unfold verifyCosmosAppIsOpen, then_. rewrite getOpenAppName_run.
  destruct (handleLedgerErrors _ _); [|reflexivity].
  unfold_promise.
  destruct (_ =? "dashboard"); [reflexivity|].
  destruct (negb _); reflexivity.
Qed.

Lemma verifyCosmosAppIsOpen_run this h :
  verifyCosmosAppIsOpen this h = (fst (verifyCosmosAppIsOpen this h), h ++ [ReqAppInfo]).
Proof.
  rewrite <- (verifyCosmosAppIsOpen_history this h).
  apply surjective_pairing.
Qed.

(** What the open-app check decides once the device has named its app. *)
Lemma verifyCosmosAppIsOpen_named this h :
  handleLedgerErrors (appinfo_status (appInfo (app this) h)) None = Ok tt ->
  verifyCosmosAppIsOpen this h =
  (let name := appName (appInfo (app this) h) in
   if toLowerCase name =? "dashboard" then Throw Failure.WrongScreen
   else if toLowerCase name =? "persistence" then Ok tt
   else Throw (Failure.WrongAppOpen name),
   h ++ [ReqAppInfo]).
Proof.
  intros E. unfold verifyCosmosAppIsOpen, then_.
  rewrite getOpenAppName_run, E. cbv zeta. unfold_promise.
  destruct (_ =? "dashboard"); [reflexivity|].
  destruct (_ =? "persistence"); reflexivity.
Qed.

Lemma verifyCosmosAppIsOpen_failed this h e :
  handleLedgerErrors (appinfo_status (appInfo (app this) h)) None = Throw e ->
  verifyCosmosAppIsOpen this h = (Throw e, h ++ [ReqAppInfo]).
Proof.
  intros E. unfold verifyCosmosAppIsOpen, then_.
  now rewrite getOpenAppName_run, E.
Qed.

Lemma getCosmosAppVersion_closed this h e h1 :
  verifyCosmosAppIsOpen this h = (Throw e, h1) ->
  getCosmosAppVersion this h = (Throw e, h1).
Proof. intros E. unfold getCosmosAppVersion. now apply then_throw. Qed.

Lemma getCosmosAppVersion_run this h u h1 :
  verifyCosmosAppIsOpen this h = (Ok u, h1) ->
  getCosmosAppVersion this h =
  (let response := getVersion (app this) h1 in
   match handleLedgerErrors (version_status response) None with
   | Throw e => Throw e
   | Ok _ =>
       match verifyAppMode this (test_mode response) with
       | Throw e => Throw e
       | Ok _ => Ok (version_string (major response) (minor response) (patch response))
       end
   end, h1 ++ [ReqGetVersion]).
Proof.
  intros E. unfold getCosmosAppVersion.
  rewrite (then_ok _ _ _ _ _ E). cbv zeta. unfold_promise.
  destruct (handleLedgerErrors _ _); [|reflexivity].
  destruct (verifyAppMode _ _); reflexivity.
Qed.

Lemma verifyAppVersion_failed this h e h1 :
  getCosmosAppVersion this h = (Throw e, h1) ->
  verifyAppVersion this h = (Throw e, h1).
Proof. intros E. unfold verifyAppVersion. now apply then_throw. Qed.

Lemma verifyAppVersion_run this h version h1 :
  getCosmosAppVersion this h = (Ok version, h1) ->
  verifyAppVersion this h =
  (match semver_gte version requiredPersistenceAppVersion with
   | Throw e => Throw e
   | Ok true => Ok tt
   | Ok false => Throw Failure.OutdatedApp
   end, h1).
Proof.
  intros E. unfold verifyAppVersion.
  rewrite (then_ok _ _ _ _ _ E). unfold_promise.
  destruct (semver_gte _ _) as [[|]|]; reflexivity.
Qed.

Lemma verifyAppVersion_history this h :
  exists tg, snd (verifyAppVersion this h) = h ++ ReqAppInfo :: tg
             /\ forallb is_gate_request tg = true
             /\ (is_ok (fst (verifyAppVersion this h)) = true -> tg = [ReqGetVersion]).
Proof.
  destruct (verifyCosmosAppIsOpen this h) as [[u|e] h1] eqn:E;
    pose proof (verifyCosmosAppIsOpen_history this h) as H1;
    rewrite E in H1; simpl in H1; subst h1.
  - pose proof (getCosmosAppVersion_run _ _ _ _ E) as G. cbv zeta in G.
    exists [ReqGetVersion].
    destruct (handleLedgerErrors _ _) as [?|e1].
    + destruct (verifyAppMode _ _) as [?|e2].
      * rewrite (verifyAppVersion_run _ _ _ _ G). simpl.
        rewrite <- app_assoc. auto.
      * rewrite (verifyAppVersion_failed _ _ _ _ G). simpl.
        rewrite <- app_assoc. auto.
    + rewrite (verifyAppVersion_failed _ _ _ _ G). simpl.
      rewrite <- app_assoc. auto.
  - exists [].
    rewrite (verifyAppVersion_failed _ _ _ _ (getCosmosAppVersion_closed _ _ _ _ E)).
    simpl. repeat split. discriminate.
Qed.

(** The gate either fails, having sent gate requests only, or passes
    after exactly three of them. *)
Lemma verifyDeviceIsReady_cases this h :
  (exists e tg,
      verifyDeviceIsReady this h = (Throw e, h ++ ReqAppInfo :: tg)
      /\ forallb is_gate_request tg = true)
  \/ verifyDeviceIsReady this h = (Ok tt, h ++ [ReqAppInfo; ReqGetVersion; ReqAppInfo]).
Proof.
  destruct (verifyAppVersion_history this h) as (tg & Hs & Hg & Hok).
  unfold verifyDeviceIsReady, then_.
  destruct (verifyAppVersion this h) as [[u|e] h1]; simpl in *; subst h1.
  - specialize (Hok eq_refl). subst tg.
    rewrite verifyCosmosAppIsOpen_run.
    destruct (fst _) as [[]|e].
    + right. now rewrite <- app_assoc.
    + left. exists e, [ReqGetVersion; ReqAppInfo].
      now rewrite <- app_assoc.
  - left. now exists e, tg.
Qed.

(** ** Versions: rendering then parsing *)

Lemma string_of_uint_no_dot d : no_dot (NilEmpty.string_of_uint d).
Proof. induction d; simpl; auto; split; auto; discriminate. Qed.

Lemma number_toString_no_dot n : no_dot (number_toString n).
Proof. apply string_of_uint_no_dot. Qed.

Lemma split_dot_whole s : no_dot s -> split_dot s = [s].
Proof.
  induction s as [|c r IH]; simpl; [reflexivity|].
  intros [Hc Hr]. destruct (Ascii.eqb_spec c "."); [contradiction|].
  now rewrite (IH Hr).
Qed.

Lemma split_dot_app s r :
  no_dot s -> split_dot (s ++ String "." r) = s :: split_dot r.
Proof.
  induction s as [|c s IH]; simpl; [reflexivity|].
  intros [Hc Hs]. destruct (Ascii.eqb_spec c "."); [contradiction|].
  now rewrite (IH Hs).
Qed.

Lemma split_dot_version a b c :
  split_dot (version_string a b c)
  = [number_toString a; number_toString b; number_toString c].
Proof.
  unfold version_string. simpl.
  rewrite split_dot_app by apply number_toString_no_dot.
  rewrite split_dot_app by apply number_toString_no_dot.
  rewrite split_dot_whole by apply number_toString_no_dot.
  reflexivity.
Qed.

Lemma nzhead_not_D0 d d' : nzhead d <> D0 d'.
Proof. induction d; simpl; auto; discriminate. Qed.

(** The rendering of a number has no leading zero, unless it is [0]. *)
Lemma to_uint_leading n d : N.to_uint n = D0 d -> d = Nil.
Proof.
  intros E. pose proof (DecimalN.Unsigned.to_of (N.to_uint n)) as H.
  rewrite DecimalN.Unsigned.of_to, E in H.
  rewrite unorm_D0 in H. unfold unorm in H.
  destruct (nzhead d) eqn:Z; try (exfalso; eapply nzhead_not_D0; rewrite Z; eauto; fail).
  congruence.
Qed.

Lemma numeric_identifier_number n :
  numeric_identifier (number_toString n) = Some n.
Proof.
  unfold number_toString, numeric_identifier.
  pose proof (DecimalN.Unsigned.of_to n) as OT.
  pose proof (NilEmpty.usu (N.to_uint n)) as U.
  destruct (N.to_uint n) as [|d|d|d|d|d|d|d|d|d|d] eqn:E;
    try (rewrite U; cbn [NilEmpty.string_of_uint option_map]; now rewrite OT).
  - destruct n as [|p]; [discriminate|].
    exfalso. exact (DecimalPos.Unsigned.to_uint_nonnil p E).
  - apply to_uint_leading in E as ->. simpl. now rewrite <- OT.
Qed.

Lemma semver_parse_version a b c :
  semver_parse (version_string a b c) = Some (a, b, c).
Proof.
  unfold semver_parse. rewrite split_dot_version.
  now rewrite !numeric_identifier_number.
Qed.

Lemma semver_compare_precedes v w : semver_compare v w = Lt <-> precedes v w.
Proof.
  destruct v as [[a1 a2] a3], w as [[b1 b2] b3]. simpl.
  destruct (N.compare_spec a1 b1); [|intuition; lia|split; [discriminate|lia]].
  destruct (N.compare_spec a2 b2); [|intuition; lia|split; [discriminate|lia]].
  destruct (N.compare_spec a3 b3); intuition; try discriminate; lia.
Qed.

Lemma semver_gte_version a b c d e f :
  semver_gte (version_string a b c) (version_string d e f)
  = Ok (match semver_compare (a, b, c) (d, e, f) with Lt => false | _ => true end).
Proof. unfold semver_gte. now rewrite !semver_parse_version. Qed.

Lemma required_version_string :
  requiredPersistenceAppVersion = version_string 1 0 0.
Proof. reflexivity. Qed.

(** A successful version query returns the triple the device reported,
    asked right after the open-app check. *)
Lemma getCosmosAppVersion_ok this h version h1 :
  getCosmosAppVersion this h = (Ok version, h1) ->
  let reported := getVersion (app this) (h ++ [ReqAppInfo]) in
  version = version_string (major reported) (minor reported) (patch reported)
  /\ h1 = h ++ [ReqAppInfo; ReqGetVersion].
Proof.
  intros G.
  destruct (verifyCosmosAppIsOpen this h) as [[u|e] h0] eqn:E.
  - pose proof (verifyCosmosAppIsOpen_history this h) as H0.
    rewrite E in H0. simpl in H0. subst h0.
    rewrite (getCosmosAppVersion_run _ _ _ _ E) in G. cbv zeta in *.
    destruct (handleLedgerErrors _ _); [|discriminate].
    destruct (verifyAppMode _ _); [|discriminate].
    injection G as <- <-. now rewrite <- app_assoc.
  - rewrite (getCosmosAppVersion_closed _ _ _ _ E) in G. discriminate.
Qed.

(** C3. Once the version query has succeeded, [verifyAppVersion] fails
    with [OutdatedApp] exactly when the version the device reported
    precedes 1.0.0 in major.minor.patch order, and succeeds exactly when
    it does not. *)
Theorem verifyAppVersion_minimum (this : LaunchpadLedger) (h : History)
    (version : string) (h1 : History) :
  getCosmosAppVersion this h = (Ok version, h1) ->
  let reported := getVersion (app this) (h ++ [ReqAppInfo]) in
  let v := (major reported, minor reported, patch reported) in
  version = version_string (major reported) (minor reported) (patch reported)
  /\ (verifyAppVersion this h = (Throw Failure.OutdatedApp, h1)
      <-> precedes v (1, 0, 0)%N)
  /\ (verifyAppVersion this h = (Ok tt, h1)
      <-> ~ precedes v (1, 0, 0)%N).
Proof.
  intros G reported v.
  destruct (getCosmosAppVersion_ok _ _ _ _ G) as [V _]. fold reported in V.
  split; [exact V|].
  rewrite (verifyAppVersion_run _ _ _ _ G), V, required_version_string,
    semver_gte_version.
  rewrite <- (semver_compare_precedes v (1, 0, 0)%N). fold v.
  destruct (semver_compare v (1, 0, 0)%N); split; split;
    intros H; try reflexivity; try discriminate H; try congruence;
    exfalso; apply H; reflexivity.
Qed.

Lemma verifyAppVersion_minimum_witness :
  verifyAppVersion (constructor (persistence_at (0, 9, 9)%N) None) []
  = (Throw Failure.OutdatedApp, [ReqAppInfo; ReqGetVersion])
  /\ verifyAppVersion (constructor (persistence_at (1, 0, 0)%N) None) []
     = (Ok tt, [ReqAppInfo; ReqGetVersion])
  /\ verifyAppVersion (constructor (persistence_at (1, 2, 0)%N) None) []
     = (Ok tt, [ReqAppInfo; ReqGetVersion]).
Proof.
  split; [|split].
  - apply (proj2 (proj1 (proj2 (verifyAppVersion_minimum
             (constructor (persistence_at (0, 9, 9)%N) None) [] "0.9.9"
             [ReqAppInfo; ReqGetVersion] eq_refl)))).
    simpl. lia.
  - apply (proj2 (proj2 (proj2 (verifyAppVersion_minimum
             (constructor (persistence_at (1, 0, 0)%N) None) [] "1.0.0"
             [ReqAppInfo; ReqGetVersion] eq_refl)))).
    simpl. lia.
  - apply (proj2 (proj2 (proj2 (verifyAppVersion_minimum
             (constructor (persistence_at (1, 2, 0)%N) None) [] "1.2.0"
             [ReqAppInfo; ReqGetVersion] eq_refl)))).
    simpl. lia.
Defined.

(** ** Test mode *)

Lemma verifyAppMode_spec this testMode :
  verifyAppMode this testMode =
  if testMode && negb (testModeAllowed this)
  then Throw Failure.TestModeRejected else Ok tt.
Proof. reflexivity. Qed.

(** Error translation with the generic rejection message never produces
    the test-mode failure. *)
Lemma handleLedgerErrors_not_test_mode response :
  handleLedgerErrors response None <> Throw Failure.TestModeRejected.
Proof.
  unfold handleLedgerErrors.
  destruct (default_to false _); [discriminate|].
  case_strings; discriminate.
Qed.

Lemma verifyCosmosAppIsOpen_not_test_mode this h :
  fst (verifyCosmosAppIsOpen this h) <> Throw Failure.TestModeRejected.
Proof.
  destruct (handleLedgerErrors (appinfo_status (appInfo (app this) h)) None)
    as [[]|e] eqn:E.
  - rewrite (verifyCosmosAppIsOpen_named _ _ E). cbv zeta. simpl.
    destruct (_ =? "dashboard"); [discriminate|].
    destruct (_ =? "persistence"); discriminate.
  - rewrite (verifyCosmosAppIsOpen_failed _ _ _ E). simpl.
    rewrite <- E. apply handleLedgerErrors_not_test_mode.
Qed.

(** C5. After the open-app check, the version response first goes through
    error translation, whose failure is the result whatever the test-mode
    flag; a response that passes fails with [TestModeRejected] when its
    test-mode flag is set and the session does not allow test mode, and
    yields the version otherwise.  When test mode is allowed, or the
    flag of the version response is not set, the call never fails with
    [TestModeRejected], whatever else happens. *)
Theorem getCosmosAppVersion_test_mode (this : LaunchpadLedger) (h : History) :
  (forall u h1,
      verifyCosmosAppIsOpen this h = (Ok u, h1) ->
      let response := getVersion (app this) h1 in
      (forall e,
          handleLedgerErrors (version_status response) None = Throw e ->
          getCosmosAppVersion this h = (Throw e, h1 ++ [ReqGetVersion]))
      /\ (handleLedgerErrors (version_status response) None = Ok tt ->
          (test_mode response = true /\ testModeAllowed this = false ->
           getCosmosAppVersion this h
           = (Throw Failure.TestModeRejected, h1 ++ [ReqGetVersion]))
          /\ (test_mode response = false \/ testModeAllowed this = true ->
              getCosmosAppVersion this h
              = (Ok (version_string (major response) (minor response) (patch response)),
                 h1 ++ [ReqGetVersion]))))
  /\ (testModeAllowed this = true
      \/ test_mode (getVersion (app this) (h ++ [ReqAppInfo])) = false ->
      fst (getCosmosAppVersion this h) <> Throw Failure.TestModeRejected).
Proof.
  split.
  - intros u h1 E response.
    pose proof (getCosmosAppVersion_run _ _ _ _ E) as G. cbv zeta in G.
    subst response. rewrite G, verifyAppMode_spec. clear G.
    split; [|intros ->; split].
    + intros e ->. reflexivity.
    + intros [-> ->]. reflexivity.
    + intros [-> | ->]; [reflexivity|].
      now rewrite andb_false_r.
  - intros A.
    destruct (verifyCosmosAppIsOpen this h) as [[u|e] h1] eqn:E.
    + pose proof (verifyCosmosAppIsOpen_history this h) as H1.
      rewrite E in H1. simpl in H1. subst h1.
      rewrite (getCosmosAppVersion_run _ _ _ _ E). cbv zeta. simpl.
      destruct (handleLedgerErrors _ _) as [[]|e] eqn:T.
      * rewrite verifyAppMode_spec.
        replace (test_mode (getVersion (app this) (h ++ [ReqAppInfo]))
                 && negb (testModeAllowed this))
          with false; [discriminate|].
        destruct A as [-> | ->]; [now rewrite andb_false_r | reflexivity].
      * intros [= ->]. exact (handleLedgerErrors_not_test_mode _ T).
    + rewrite (getCosmosAppVersion_closed _ _ _ _ E). simpl.
      intros [= ->].
      apply (verifyCosmosAppIsOpen_not_test_mode this h). now rewrite E.
Qed.

Lemma getCosmosAppVersion_test_mode_witness :
  getCosmosAppVersion (constructor persistence_test_build None) []
  = (Throw Failure.TestModeRejected, [ReqAppInfo; ReqGetVersion])
  /\ getCosmosAppVersion
       (constructor persistence_test_build
          (Some (mkLaunchpadLedgerOptions None None (Some true)))) []
     = (Ok "1.2.0", [ReqAppInfo; ReqGetVersion])
  /\ fst (getCosmosAppVersion (constructor (persistence_at (1, 2, 0)%N) None) [])
     <> Throw Failure.TestModeRejected.
Proof.
  split; [|split].
  - apply (proj1 (proj2 (proj1 (getCosmosAppVersion_test_mode
             (constructor persistence_test_build None) [])
             tt [ReqAppInfo] eq_refl) eq_refl)).
    split; reflexivity.
  - apply (proj2 (proj2 (proj1 (getCosmosAppVersion_test_mode
             (constructor persistence_test_build
                (Some (mkLaunchpadLedgerOptions None None (Some true)))) [])
             tt [ReqAppInfo] eq_refl) eq_refl)).
    now right.
  - apply (proj2 (getCosmosAppVersion_test_mode
             (constructor (persistence_at (1, 2, 0)%N) None) [])).
    right. reflexivity.
Defined.

(** ** Letter case *)

Lemma is_upper_range c :
  is_upper c = true <-> (65 <= nat_of_ascii c <= 90)%nat.
Proof.
  unfold is_upper. cbv zeta.
  rewrite andb_true_iff, !Nat.leb_le. reflexivity.
Qed.

Lemma case_pair_lower u l : case_pair u l -> toLowerCase_char u = l.
Proof.
  intros [U E]. unfold toLowerCase_char. rewrite U, <- E.
  apply ascii_nat_embedding.
Qed.

Lemma case_pair_fixed u l : case_pair u l -> toLowerCase_char l = l.
Proof.
  intros [U E]. unfold toLowerCase_char.
  destruct (is_upper l) eqn:L; [|reflexivity].
  apply is_upper_range in U, L. lia.
Qed.

Lemma same_letter_lower a b :
  same_letter a b <-> toLowerCase_char a = toLowerCase_char b.
Proof.
  split.
  - intros [->|[P|P]]; [reflexivity| |];
      rewrite (case_pair_lower _ _ P), (case_pair_fixed _ _ P); reflexivity.
  - unfold toLowerCase_char.
    destruct (is_upper a) eqn:A, (is_upper b) eqn:B; intros E.
    + left. apply is_upper_range in A, B.
      apply (f_equal nat_of_ascii) in E.
      rewrite !nat_ascii_embedding in E by lia.
      rewrite <- (ascii_nat_embedding a), <- (ascii_nat_embedding b).
      f_equal. lia.
    + right; left. split; [exact A|].
      apply is_upper_range in A. rewrite <- E.
      apply nat_ascii_embedding. lia.
    + right; right. split; [exact B|].
      apply is_upper_range in B. rewrite E.
      apply nat_ascii_embedding. lia.
    + now left.
Qed.

Lemma casing_of_lower s t :
  casing_of s t <-> toLowerCase s = toLowerCase t.
Proof.
  split.
  - induction 1 as [|a b s t L _ IH]; simpl; [reflexivity|].
    apply same_letter_lower in L. congruence.
  - revert t. induction s as [|a s IH]; intros [|b t]; simpl;
      try discriminate; [constructor|].
    intros [= L E]. constructor; [now apply same_letter_lower | auto].
Qed.

(** C6. Once the device has named its open app, the check compares the
    name without regard to letter case: any casing of "Dashboard" fails
    with [WrongScreen]; any casing of the expected name "Persistence"
    succeeds; every other name fails with [WrongAppOpen], whose message
    names the open app as the device spelled it. *)
Theorem verifyCosmosAppIsOpen_casing (this : LaunchpadLedger) (h : History)
    (name : string) :
  handleLedgerErrors (appinfo_status (appInfo (app this) h)) None = Ok tt ->
  appName (appInfo (app this) h) = name ->
  (casing_of "Dashboard" name ->
   verifyCosmosAppIsOpen this h = (Throw Failure.WrongScreen, h ++ [ReqAppInfo]))
  /\ (casing_of "Persistence" name ->
      verifyCosmosAppIsOpen this h = (Ok tt, h ++ [ReqAppInfo]))
  /\ (~ casing_of "Dashboard" name ->
      ~ casing_of "Persistence" name ->
      verifyCosmosAppIsOpen this h
      = (Throw (Error ("Please close " ++ name
                       ++ " and open the Persistence Ledger app on your Ledger device.")),
         h ++ [ReqAppInfo])).
Proof.
  intros T <-. rewrite (verifyCosmosAppIsOpen_named _ _ T). cbv zeta.
  rewrite !casing_of_lower. simpl (toLowerCase "Dashboard").
  simpl (toLowerCase "Persistence").
  split; [|split].
  - intros <-. reflexivity.
  - intros <-. reflexivity.
  - intros D P.
    destruct (String.eqb_spec (toLowerCase (appName (appInfo (app this) h))) "dashboard")
      as [C|_]; [now symmetry in C|].
    destruct (String.eqb_spec (toLowerCase (appName (appInfo (app this) h))) "persistence")
      as [C|_]; [now symmetry in C|].
    reflexivity.
Qed.

Lemma verifyCosmosAppIsOpen_casing_witness :
  verifyCosmosAppIsOpen
    (constructor (showing "DASHboard") None) []
  = (Throw Failure.WrongScreen, [ReqAppInfo])
  /\ verifyCosmosAppIsOpen
       (constructor (showing "PERSISTENCE") None) []
     = (Ok tt, [ReqAppInfo])
  /\ verifyCosmosAppIsOpen
       (constructor (showing "SomeOtherApp") None) []
     = (Throw (Failure.WrongAppOpen "SomeOtherApp"), [ReqAppInfo]).
Proof.
  split; [|split].
  - apply (proj1 (verifyCosmosAppIsOpen_casing
             (constructor (showing "DASHboard") None)
             [] "DASHboard" eq_refl eq_refl)).
    repeat constructor; right; (left + right); split; reflexivity.
  - apply (proj1 (proj2 (verifyCosmosAppIsOpen_casing
             (constructor (showing "PERSISTENCE") None)
             [] "PERSISTENCE" eq_refl eq_refl))).
    repeat constructor; right; (left + right); split; reflexivity.
  - apply (proj2 (proj2 (verifyCosmosAppIsOpen_casing
             (constructor (showing "SomeOtherApp") None)
             [] "SomeOtherApp" eq_refl eq_refl))).
    + intros C. apply casing_of_lower in C. discriminate C.
    + intros C. apply casing_of_lower in C. discriminate C.
Defined.

(** ** The gate comes first *)

Lemma gated_then {A} this (k : Promise A) :
  (forall h, exists t, snd (k h) = h ++ t /\ (List.length t <= 1)%nat) ->
  gated this (verifyDeviceIsReady this ;; k).
Proof.
  intros K h. unfold then_.
  destruct (verifyDeviceIsReady_cases this h) as [(e & tg & -> & G)| ->].
  - split; [reflexivity|]. now exists tg.
  - split; [reflexivity|]. apply K.
Qed.

Lemma getPubkey_gated this hdPath : gated this (getPubkey this hdPath).
Proof.
  apply gated_then. intros h. unfold_promise.
  destruct (unharden_arg _) as [path|e]; simpl.
  - destruct (handleLedgerErrors _ _); exists [ReqPublicKey path]; auto.
  - exists []. rewrite List.app_nil_r. auto.
Qed.

Lemma verifyAddress_gated this hdPath : gated this (verifyAddress this hdPath).
Proof.
  apply gated_then. intros h. unfold_promise.
  destruct (handleLedgerErrors _ _); simpl; eauto.
Qed.

Section CollaboratorsFacts.

Variable fromUtf8 : list byte -> Result string.
Variable fromDer_toFixedLength : list byte -> Result (list byte).
Variable getBech32FromPK : string -> list byte -> Result string.

Lemma sign_gated this message hdPath :
  gated this (sign fromUtf8 fromDer_toFixedLength this message hdPath).
Proof.
  apply gated_then. intros h. unfold_promise.
  destruct (unharden_arg _) as [path|e]; simpl.
  - destruct (fromUtf8 message) as [text|e]; simpl.
    + destruct (handleLedgerErrors _ _); simpl; exists [ReqSign path text]; auto.
    + exists []. rewrite List.app_nil_r. auto.
  - exists []. rewrite List.app_nil_r. auto.
Qed.

End CollaboratorsFacts.

(** C2. Each data-producing operation runs the full gate first, on every
    call: whatever was sent before, the call starts with the gate's
    requests, sends nothing else when the gate fails, and sends its one
    key, signature or address request only after the gate has passed. *)
Theorem data_operations_gated (this : LaunchpadLedger)
    (fromUtf8 : list byte -> Result string)
    (fromDer_toFixedLength : list byte -> Result (list byte)) :
  (forall hdPath, gated this (getPubkey this hdPath))
  /\ (forall message hdPath,
        gated this (sign fromUtf8 fromDer_toFixedLength this message hdPath))
  /\ (forall hdPath, gated this (verifyAddress this hdPath)).
Proof.
  split; [|split].
  - apply getPubkey_gated.
  - apply sign_gated.
  - apply verifyAddress_gated.
Qed.

(** ** Keys for all configured paths *)

Lemma reduce_sequential this paths (promise : Promise (list (list byte))) h :
  fold_left
    (fun promise hdPath =>
       pubkeys <- promise ;;
       pubkey <- getPubkey this (Some hdPath) ;;
       resolve (pubkeys ++ [pubkey]))
    paths promise h
  = (done <- promise ;;
     pubkeys <- sequential_getPubkeys this paths ;;
     resolve (done ++ pubkeys)) h.
Proof.
  revert promise h. induction paths as [|hdPath rest IH]; intros promise h; simpl.
  - unfold then_, resolve. destruct (promise h) as [[done|e] h1]; [|reflexivity].
    now rewrite List.app_nil_r.
  - rewrite IH. unfold then_, resolve.
    destruct (promise h) as [[done|e] h1]; [|reflexivity].
    destruct (getPubkey this (Some hdPath) h1) as [[pubkey|e] h2]; [|reflexivity].
    destruct (sequential_getPubkeys this rest h2) as [[pubkeys|e] h3]; [|reflexivity].
    now rewrite <- app_assoc.
Qed.

Lemma getPubkeys_sequential this h :
  getPubkeys this h = sequential_getPubkeys this (hdPaths this) h.
Proof.
  unfold getPubkeys. rewrite reduce_sequential. unfold then_, resolve.
  destruct (sequential_getPubkeys this (hdPaths this) h) as [[pubkeys|e] h1];
    reflexivity.
Qed.

Lemma sequential_ok this paths h pubkeys h' :
  sequential_getPubkeys this paths h = (Ok pubkeys, h')
  <-> keys_in_order this h paths pubkeys h'.
Proof.
  revert h pubkeys h'. induction paths as [|hdPath rest IH]; intros h pubkeys h'; simpl.
  - unfold resolve. split.
    + intros [= <- <-]. constructor.
    + inversion 1. reflexivity.
  - unfold then_, resolve. split.
    + destruct (getPubkey this (Some hdPath) h) as [[pubkey|e] h1] eqn:G; [|discriminate].
      destruct (sequential_getPubkeys this rest h1) as [[done|e] h2] eqn:S; [|discriminate].
      intros [= <- <-]. econstructor; [exact G|]. now apply IH.
    + inversion 1 as [|? ? pubkey h1 ? done ? G S]; subst.
      rewrite G. apply IH in S. now rewrite S.
Qed.

Lemma sequential_failed this pre hdPath post h done h1 e h2 :
  keys_in_order this h pre done h1 ->
  getPubkey this (Some hdPath) h1 = (Throw e, h2) ->
  sequential_getPubkeys this (pre ++ hdPath :: post) h = (Throw e, h2).
Proof.
  induction 1 as [h|h p pubkey h1 rest pubkeys h3 G _ IH]; intros F; simpl.
  - now apply then_throw.
  - rewrite (then_ok _ _ _ _ _ G). apply then_throw. auto.
Qed.

Lemma getPubkey_ok this hdPath h pubkey h1 :
  getPubkey this (Some hdPath) h = (Ok pubkey, h1) ->
  h1 = h ++ key_round hdPath
  /\ pubkey = compressed_pk (publicKey (app this)
                (h ++ [ReqAppInfo; ReqGetVersion; ReqAppInfo]) (unharden hdPath)).
Proof.
  unfold getPubkey, then_ at 1.
  destruct (verifyDeviceIsReady_cases this h) as [(e & tg & -> & _)| ->];
    [discriminate|].
  unfold_promise. simpl.
  destruct (handleLedgerErrors _ _); [|discriminate].
  intros [= <- <-]. rewrite <- app_assoc. auto.
Qed.

Lemma keys_in_order_history this h paths pubkeys h' :
  keys_in_order this h paths pubkeys h' ->
  h' = h ++ flat_map key_round paths /\ List.length pubkeys = List.length paths.
Proof.
  induction 1 as [h|h p pubkey h1 rest pubkeys h2 G _ [-> L]].
  - simpl. now rewrite List.app_nil_r.
  - apply getPubkey_ok in G as [-> _].
    cbn [flat_map List.length]. rewrite <- app_assoc. auto.
Qed.

Lemma key_requests_of_rounds paths :
  filter is_key_request (flat_map key_round paths)
  = map (fun hdPath => ReqPublicKey (unharden hdPath)) paths.
Proof. induction paths as [|p rest IH]; simpl; [reflexivity|]. now rewrite IH. Qed.

(** C4. [getPubkeys] asks for one key per configured path, in input
    order, each request made in the history the previous one left.  When
    it succeeds it has sent exactly one key request per path, in order,
    and returns as many keys, in the same order.  When the request for
    some path fails after those before it succeeded, the whole call fails
    with that failure, returns no key, and sends nothing for the paths
    after it. *)
Theorem getPubkeys_in_order (this : LaunchpadLedger) (h : History) :
  (forall pubkeys h',
      getPubkeys this h = (Ok pubkeys, h') <->
      keys_in_order this h (hdPaths this) pubkeys h')
  /\ (forall pubkeys h',
        getPubkeys this h = (Ok pubkeys, h') ->
        List.length pubkeys = List.length (hdPaths this)
        /\ exists sent,
            h' = h ++ sent
            /\ filter is_key_request sent
               = map (fun hdPath => ReqPublicKey (unharden hdPath)) (hdPaths this))
  /\ (forall pre hdPath post done h1 e h2,
        hdPaths this = pre ++ hdPath :: post ->
        keys_in_order this h pre done h1 ->
        getPubkey this (Some hdPath) h1 = (Throw e, h2) ->
        getPubkeys this h = (Throw e, h2)
        /\ exists sent,
            h1 = h ++ sent
            /\ filter is_key_request sent
               = map (fun hdPath => ReqPublicKey (unharden hdPath)) pre).
Proof.
  split; [|split].
  - intros pubkeys h'. rewrite getPubkeys_sequential. apply sequential_ok.
  - intros pubkeys h' G.
    rewrite getPubkeys_sequential in G. apply sequential_ok in G.
    apply keys_in_order_history in G as [-> L]. split; [exact L|].
    eexists. split; [reflexivity|]. apply key_requests_of_rounds.
  - intros pre hdPath post done h1 e h2 P K F. split.
    + rewrite getPubkeys_sequential, P.
      exact (sequential_failed _ _ _ _ _ _ _ _ _ K F).
    + apply keys_in_order_history in K as [-> _].
      eexists. split; [reflexivity|]. apply key_requests_of_rounds.
Qed.

Lemma getPubkeys_in_order_witness :
  getPubkeys (constructor (persistence_at (1, 2, 0)%N) (Some two_accounts)) []
  = (Ok [key_of_path [44; 750; 0; 0; 0]%Z; key_of_path [44; 750; 1; 0; 0]%Z],
     key_round persistenceHdPath ++ key_round second_account)
  /\ getPubkeys (constructor times_out_on_second (Some two_accounts)) []
     = (Throw Failure.ConnectionTimeout,
        key_round persistenceHdPath ++ key_round second_account).
Proof.
  split.
  - apply (proj1 (getPubkeys_in_order
             (constructor (persistence_at (1, 2, 0)%N) (Some two_accounts)) [])).
    eapply keys_next; [reflexivity|].
    eapply keys_next; [reflexivity|].
    apply keys_none.
  - apply (proj2 (proj2 (getPubkeys_in_order
             (constructor times_out_on_second (Some two_accounts)) []))
             [persistenceHdPath] second_account []
             [key_of_path [44; 750; 0; 0; 0]%Z] (key_round persistenceHdPath)).
    + reflexivity.
    + eapply keys_next; [reflexivity|]. apply keys_none.
    + reflexivity.
Defined.

(** C10. A session built with an empty path list is accepted as it is, and
    its [getPubkeys] returns no key without contacting the device: the
    history is unchanged, so neither the gate nor a key request ran. *)
Theorem getPubkeys_no_paths (transport : CosmosApp) (prefix' : option string)
    (testModeAllowed' : option bool) (h : History) :
  let this :=
    constructor transport
      (Some (mkLaunchpadLedgerOptions (Some []) prefix' testModeAllowed')) in
  hdPaths this = [] /\ getPubkeys this h = (Ok [], h).
Proof. split; reflexivity. Qed.

(** ** Addresses *)

Lemma getPubkey_default this h first :
  nth_error (hdPaths this) 0 = Some first ->
  getPubkey this None h = getPubkey this (Some first) h.
Proof. intros F. unfold getPubkey, hdPathToUse. now rewrite F. Qed.

Lemma getPubkey_default_ok this h pubkey h1 :
  getPubkey this None h = (Ok pubkey, h1) ->
  exists first, nth_error (hdPaths this) 0 = Some first /\ h1 = h ++ key_round first.
Proof.
  destruct (nth_error (hdPaths this) 0) as [first|] eqn:F.
  - rewrite (getPubkey_default _ _ _ F). intros G.
    apply getPubkey_ok in G as [-> _]. now exists first.
  - unfold getPubkey, hdPathToUse. rewrite F. unfold then_ at 1.
    destruct (verifyDeviceIsReady this h) as [[u|e] hg]; discriminate.
Qed.

(** C9. With a key given, [getCosmosAddress] only encodes it: the history
    is unchanged.  With no key, it is one [getPubkey] call on the default
    path followed by the encoding: when that call succeeds its requests,
    the gate and one key request for the first configured path, are all
    that is sent; when it fails, its failure is the result. *)
Theorem getCosmosAddress_round_trips
    (getBech32FromPK : string -> list byte -> Result string)
    (this : LaunchpadLedger) (h : History) :
  (forall pubkey,
      getCosmosAddress getBech32FromPK this (Some pubkey) h
      = (getBech32FromPK (prefix this) pubkey, h))
  /\ getCosmosAddress getBech32FromPK this None h
     = (pubkey <- getPubkey this None ;;
        lift (getBech32FromPK (prefix this) pubkey)) h
  /\ (forall pubkey h1,
        getPubkey this None h = (Ok pubkey, h1) ->
        getCosmosAddress getBech32FromPK this None h
        = (getBech32FromPK (prefix this) pubkey, h1)
        /\ exists first,
            nth_error (hdPaths this) 0 = Some first
            /\ h1 = h ++ [ReqAppInfo; ReqGetVersion; ReqAppInfo;
                          ReqPublicKey (unharden first)])
  /\ (forall e h1,
        getPubkey this None h = (Throw e, h1) ->
        getCosmosAddress getBech32FromPK this None h = (Throw e, h1)).
Proof.
  split; [|split; [|split]].
  - reflexivity.
  - reflexivity.
  - intros pubkey h1 G. split.
    + unfold getCosmosAddress. now rewrite (then_ok _ _ _ _ _ G).
    + exact (getPubkey_default_ok _ _ _ _ G).
  - intros e h1 G. unfold getCosmosAddress. now apply then_throw.
Qed.

Lemma getCosmosAddress_round_trips_witness :
  getCosmosAddress toy_bech32 (constructor (persistence_at (1, 2, 0)%N) None) None []
  = (Ok "persistence16",
     [ReqAppInfo; ReqGetVersion; ReqAppInfo; ReqPublicKey [44; 750; 0; 0; 0]%Z])
  /\ getCosmosAddress toy_bech32
       (constructor (showing "Dashboard") None)
       None []
     = (Throw Failure.WrongScreen, [ReqAppInfo]).
Proof.
  split.
  - apply (proj1 (proj2 (proj2 (getCosmosAddress_round_trips toy_bech32
             (constructor (persistence_at (1, 2, 0)%N) None) [])))
             (key_of_path [44; 750; 0; 0; 0]%Z)
             [ReqAppInfo; ReqGetVersion; ReqAppInfo; ReqPublicKey [44; 750; 0; 0; 0]%Z]).
    reflexivity.
  - apply (proj2 (proj2 (proj2 (getCosmosAddress_round_trips toy_bech32
             (constructor (showing "Dashboard") None)
             [])))).
    reflexivity.
Defined.

(** ** Hardening *)

Lemma makeHdPath_default :
  makeHdPath None None None
  = Ok [hardened 44; hardened 750; hardened 0; normal 0; normal 0].
Proof. reflexivity. Qed.

Lemma unharden_hardened i : (0 <= i)%Z -> unharden [hardened i] = [i].
Proof.
  intros H. unfold unharden, isHardened, hardened. cbn [map toNumber].
  destruct (Z.leb_spec (2 ^ 31) (i + 2 ^ 31)); [|lia].
  f_equal. lia.
Qed.

Lemma unharden_normal i : (i < 2 ^ 31)%Z -> unharden [normal i] = [i].
Proof.
  intros H. unfold unharden, isHardened, normal. cbn [map toNumber].
  destruct (Z.leb_spec (2 ^ 31) i); [lia|reflexivity].
Qed.

(** C8. [unharden] maps a hardened segment to its stored value minus 2^31
    and any other segment to its stored value, so it gives back the
    indices a path was built from; the default path, built from
    44', 750', 0', 0, 0, unhardens to 44, 750, 0, 0, 0. *)
Theorem unharden_round_trip :
  (forall hdPath : HdPath,
      unharden hdPath
      = map (fun n => if (2 ^ 31 <=? toNumber n)%Z
                      then (toNumber n - 2 ^ 31)%Z else toNumber n) hdPath)
  /\ (forall segments : list (bool * Z),
        Forall (fun s : bool * Z => (0 <= snd s < 2 ^ 31)%Z) segments ->
        unharden (path_of segments) = map snd segments)
  /\ makeHdPath None None None
     = Ok (path_of [(true, 44); (true, 750); (true, 0); (false, 0); (false, 0)]%Z)
  /\ unharden persistenceHdPath = [44; 750; 0; 0; 0]%Z.
Proof.
  split; [|split; [|split]]; try reflexivity.
  induction 1 as [|[hard i] rest [L U] _ IH]; [reflexivity|].
  simpl in L, U.
  change (unharden (path_of ((hard, i) :: rest)))
    with (unharden [if hard then hardened i else normal i]
          ++ unharden (path_of rest)).
  rewrite IH. destruct hard.
  - now rewrite unharden_hardened.
  - now rewrite unharden_normal.
Qed.

Lemma unharden_round_trip_witness :
  unharden (path_of [(true, 44); (true, 750); (true, 1); (false, 0); (false, 7)]%Z)
  = [44; 750; 1; 0; 7]%Z.
Proof.
  apply (proj1 (proj2 unharden_round_trip)
           [(true, 44); (true, 750); (true, 1); (false, 0); (false, 7)]%Z).
  repeat (apply Forall_cons; [simpl; lia|]). apply Forall_nil.
Defined.

(** ** Rejected requests *)




(** ** Further runs *)

(** What the three data-producing operations do once the gate has passed:
    one request, whose response goes through error translation before
    its payload is used. *)
Lemma getPubkey_run this hdPath h u h1 path :
  verifyDeviceIsReady this h = (Ok u, h1) ->
  unharden_arg (hdPathToUse this hdPath) = Ok path ->
  getPubkey this hdPath h =
  (let response := publicKey (app this) h1 path in
   match handleLedgerErrors (publickey_status response) None with
   | Ok _ => Ok (compressed_pk response)
   | Throw e => Throw e
   end, h1 ++ [ReqPublicKey path]).
Proof.
  intros G P. unfold getPubkey. rewrite (then_ok _ _ _ _ _ G), P.
  unfold_promise. cbv zeta.
  destruct (handleLedgerErrors _ _); reflexivity.
Qed.

Lemma verifyAddress_run this hdPath h u h1 :
  verifyDeviceIsReady this h = (Ok u, h1) ->
  verifyAddress this hdPath h =
  (let response :=
     showAddressAndPubKey (app this) h1 (unharden hdPath) "persistence" in
   match handleLedgerErrors (address_status response) None with
   | Ok _ => Ok response
   | Throw e => Throw e
   end, h1 ++ [ReqShowAddressAndPubKey (unharden hdPath) "persistence"]).
Proof.
  intros G. unfold verifyAddress. rewrite (then_ok _ _ _ _ _ G).
  unfold_promise. cbv zeta.
  destruct (handleLedgerErrors _ _); reflexivity.
Qed.

Lemma sign_run fromUtf8 fromDer_toFixedLength this message hdPath h u h1 path text :
  verifyDeviceIsReady this h = (Ok u, h1) ->
  unharden_arg (hdPathToUse this hdPath) = Ok path ->
  fromUtf8 message = Ok text ->
  sign fromUtf8 fromDer_toFixedLength this message hdPath h =
  (let response := sign_device (app this) h1 path text in
   match handleLedgerErrors (sign_status response)
           (Some "Transaction signing request was rejected by the user") with
   | Ok _ => fromDer_toFixedLength (signature response)
   | Throw e => Throw e
   end, h1 ++ [ReqSign path text]).
Proof.
  intros G P U. unfold sign. rewrite (then_ok _ _ _ _ _ G), P.
  unfold_promise. rewrite U. cbv zeta beta iota.
  destruct (handleLedgerErrors _ _); reflexivity.
Qed.

(** Without a configured path, [getPubkey()] has no default path to fall
    back on: it runs the gate and then stops on the missing path, with no
    key request sent. *)
Lemma getPubkey_no_default this h u h1 :
  hdPaths this = [] ->
  verifyDeviceIsReady this h = (Ok u, h1) ->
  getPubkey this None h
  = (Throw (TypeError "Cannot read properties of undefined (reading 'map')"), h1).
Proof.
  intros E G. unfold getPubkey, hdPathToUse.
  rewrite (then_ok _ _ _ _ _ G), E. reflexivity.
Qed.

(** Nothing is remembered between two calls: when the user leaves the app
    after a first successful call, the second call is stopped by its own
    gate before any key request. *)
Example switching_apps_is_noticed :
  let this := constructor app_then_dashboard None in
  getPubkey this None []
  = (Ok (key_of_path [44; 750; 0; 0; 0]%Z), key_round persistenceHdPath)
  /\ getPubkey this None (key_round persistenceHdPath)
     = (Throw Failure.WrongScreen, key_round persistenceHdPath ++ [ReqAppInfo]).
Proof. split; reflexivity. Qed.

(** * Further properties of the session *)

(** ** When the gate passes *)

Lemma verifyCosmosAppIsOpen_ok_iff this h :
  verifyCosmosAppIsOpen this h = (Ok tt, h ++ [ReqAppInfo])
  <-> app_is_persistence this h.
Proof.
  unfold app_is_persistence.
  destruct (handleLedgerErrors (appinfo_status (appInfo (app this) h)) None)
    as [[]|e] eqn:T.
  - rewrite (verifyCosmosAppIsOpen_named _ _ T). cbv zeta.
    destruct (String.eqb_spec (toLowerCase (appName (appInfo (app this) h))) "dashboard")
      as [D|D].
    + rewrite D. split; [discriminate|]. intros [_ C]. discriminate C.
    + destruct (String.eqb_spec (toLowerCase (appName (appInfo (app this) h))) "persistence")
        as [P|P].
      * split; auto.
      * split; [discriminate|]. intros [_ C]. contradiction.
  - rewrite (verifyCosmosAppIsOpen_failed _ _ _ T).
    split; [discriminate|]. intros [C _]. discriminate C.
Qed.

Lemma semver_gte_required a b c :
  semver_gte (version_string a b c) requiredPersistenceAppVersion
  = Ok (1 <=? a)%N.
Proof.
  rewrite required_version_string, semver_gte_version. f_equal.
  unfold semver_compare.
  destruct (N.compare_spec a 1) as [->|L|L].
  - now destruct b, c.
  - symmetry. apply N.leb_gt. exact L.
  - symmetry. apply N.leb_le. lia.
Qed.

Lemma verifyAppMode_ok_iff this testMode :
  verifyAppMode this testMode = Ok tt
  <-> testMode = false \/ testModeAllowed this = true.
Proof.
  rewrite verifyAppMode_spec.
  destruct testMode, (testModeAllowed this); simpl; split; auto;
    try discriminate; intros [C|C]; discriminate C.
Qed.

Lemma verifyAppVersion_ok_iff this h :
  verifyAppVersion this h = (Ok tt, h ++ [ReqAppInfo; ReqGetVersion])
  <-> app_is_persistence this h /\ version_is_accepted this (h ++ [ReqAppInfo]).
Proof.
  unfold version_is_accepted. rewrite <- verifyAppMode_ok_iff, <- N.leb_le.
  destruct (verifyCosmosAppIsOpen this h) as [[[]|e] h1] eqn:E;
    pose proof (verifyCosmosAppIsOpen_history this h) as H1;
    rewrite E in H1; simpl in H1; subst h1.
  - pose proof (proj1 (verifyCosmosAppIsOpen_ok_iff this h) E) as A.
    pose proof (getCosmosAppVersion_run _ _ _ _ E) as G. cbv zeta in G.
    rewrite <- app_assoc in G. simpl app in G.
    destruct (handleLedgerErrors _ _) as [[]|e1].
    + destruct (verifyAppMode _ _) as [[]|e2].
      * rewrite (verifyAppVersion_run _ _ _ _ G), semver_gte_required.
        destruct (1 <=? _)%N; split; auto; try discriminate.
        intros [_ (_ & _ & C)]. discriminate C.
      * rewrite (verifyAppVersion_failed _ _ _ _ G).
        split; [discriminate|]. intros [_ (_ & C & _)]. discriminate C.
    + rewrite (verifyAppVersion_failed _ _ _ _ G).
      split; [discriminate|]. intros [_ (C & _)]. discriminate C.
  - rewrite (verifyAppVersion_failed _ _ _ _ (getCosmosAppVersion_closed _ _ _ _ E)).
    split; [discriminate|]. intros [A _].
    apply verifyCosmosAppIsOpen_ok_iff in A. congruence.
Qed.

Lemma verifyDeviceIsReady_ok_iff this h :
  verifyDeviceIsReady this h = (Ok tt, h ++ gate_round)
  <-> gate_conditions this h.
Proof.
  unfold gate_conditions, gate_round.
  rewrite <- and_assoc, <- verifyAppVersion_ok_iff, <- verifyCosmosAppIsOpen_ok_iff.
  rewrite <- app_assoc. simpl app.
  unfold verifyDeviceIsReady, then_.
  destruct (verifyAppVersion_history this h) as (tg & Hs & _ & Hok).
  destruct (verifyAppVersion this h) as [[[]|e] h1]; simpl in Hs, Hok.
  - specialize (Hok eq_refl). subst tg h1. split; auto. intros [_ V]. exact V.
  - split; [discriminate|]. intros [C _]. discriminate C.
Qed.

(** X1. The gate passes exactly when the device, asked in turn for its
    open app, its version and its open app again, answers each time
    without error, names the Persistence app both times, is not in a
    refused test mode and reports a major version of at least 1; it has
    then sent exactly these three requests. *)
Theorem verifyDeviceIsReady_passes (this : LaunchpadLedger) (h : History) :
  (verifyDeviceIsReady this h = (Ok tt, h ++ [ReqAppInfo; ReqGetVersion; ReqAppInfo])
   <-> gate_conditions this h)
  /\ (forall h1, verifyDeviceIsReady this h = (Ok tt, h1) ->
                 h1 = h ++ [ReqAppInfo; ReqGetVersion; ReqAppInfo]).
Proof.
  split.
  - apply verifyDeviceIsReady_ok_iff.
  - intros h1 G.
    destruct (verifyDeviceIsReady_cases this h) as [(e & tg & F & _)|P];
      congruence.
Qed.

Lemma verifyDeviceIsReady_passes_witness :
  verifyDeviceIsReady (constructor (showing "PERSISTENCE") None) []
  = (Ok tt, [ReqAppInfo; ReqGetVersion; ReqAppInfo]).
Proof.
  apply (proj1 (verifyDeviceIsReady_passes
                  (constructor (showing "PERSISTENCE") None) [])).
  repeat split; try reflexivity; try discriminate.
  now left.
Defined.

(** ** Where the gate stops *)

(** X2. The gate stops at its first failing step and reports that
    failure: a failed first open-app check ends it after one request,
    before the version is asked; a failed version check ends it after
    two; a failed second open-app check ends it after three. *)
Theorem verifyDeviceIsReady_first_failure (this : LaunchpadLedger) (h : History) :
  (forall e h1,
      verifyCosmosAppIsOpen this h = (Throw e, h1) ->
      verifyDeviceIsReady this h = (Throw e, h ++ [ReqAppInfo]))
  /\ (forall e h1,
        app_is_persistence this h ->
        verifyAppVersion this h = (Throw e, h1) ->
        verifyDeviceIsReady this h = (Throw e, h ++ [ReqAppInfo; ReqGetVersion]))
  /\ (forall e h1,
        verifyAppVersion this h = (Ok tt, h ++ [ReqAppInfo; ReqGetVersion]) ->
        verifyCosmosAppIsOpen this (h ++ [ReqAppInfo; ReqGetVersion]) = (Throw e, h1) ->
        verifyDeviceIsReady this h
        = (Throw e, h ++ [ReqAppInfo; ReqGetVersion; ReqAppInfo])).
Proof.
  split; [|split].
  - intros e h1 E.
    pose proof (verifyCosmosAppIsOpen_history this h) as H1.
    rewrite E in H1. simpl in H1. subst h1.
    unfold verifyDeviceIsReady. apply then_throw.
    apply verifyAppVersion_failed. now apply getCosmosAppVersion_closed.
  - intros e h1 A V.
    apply verifyCosmosAppIsOpen_ok_iff in A.
    assert (h1 = h ++ [ReqAppInfo; ReqGetVersion]) as ->.
    { destruct (getCosmosAppVersion this h) as [[version|e'] h2] eqn:G.
      - destruct (getCosmosAppVersion_ok _ _ _ _ G) as [_ ->].
        rewrite (verifyAppVersion_run _ _ _ _ G) in V. congruence.
      - rewrite (verifyAppVersion_failed _ _ _ _ G) in V.
        rewrite (getCosmosAppVersion_run _ _ _ _ A) in G. cbv zeta in G.
        rewrite <- app_assoc in G. simpl app in G.
        injection V as _ <-. now injection G as _ <-. }
    unfold verifyDeviceIsReady. now apply then_throw.
  - intros e h1 V E.
    pose proof (verifyCosmosAppIsOpen_history this (h ++ [ReqAppInfo; ReqGetVersion])) as H1.
    rewrite E in H1. simpl in H1. subst h1.
    unfold verifyDeviceIsReady. rewrite (then_ok _ _ _ _ _ V), E.
    now rewrite <- app_assoc.
Qed.

Lemma verifyDeviceIsReady_first_failure_witness :
  verifyDeviceIsReady (constructor (showing "Dashboard") None) []
  = (Throw Failure.WrongScreen, [ReqAppInfo])
  /\ verifyDeviceIsReady (constructor (persistence_at (0, 9, 9)%N) None) []
     = (Throw Failure.OutdatedApp, [ReqAppInfo; ReqGetVersion])
  /\ verifyDeviceIsReady (constructor app_then_dashboard None)
       [ReqAppInfo; ReqGetVersion]
     = (Throw Failure.WrongScreen,
        [ReqAppInfo; ReqGetVersion] ++ [ReqAppInfo; ReqGetVersion; ReqAppInfo]).
Proof.
  split; [|split].
  - apply (proj1 (verifyDeviceIsReady_first_failure
                    (constructor (showing "Dashboard") None) [])
             Failure.WrongScreen [ReqAppInfo]).
    reflexivity.
  - apply (proj1 (proj2 (verifyDeviceIsReady_first_failure
                    (constructor (persistence_at (0, 9, 9)%N) None) []))
             Failure.OutdatedApp [ReqAppInfo; ReqGetVersion]).
    + split; reflexivity.
    + reflexivity.
  - apply (proj2 (proj2 (verifyDeviceIsReady_first_failure
                    (constructor app_then_dashboard None) [ReqAppInfo; ReqGetVersion]))
             Failure.WrongScreen
             ([ReqAppInfo; ReqGetVersion] ++ [ReqAppInfo; ReqGetVersion; ReqAppInfo])).
    + reflexivity.
    + reflexivity.
Defined.

(** ** No data without the gate's conditions *)

Lemma gated_data_request {A} this (op : Promise A) h sent q :
  gated this op ->
  snd (op h) = h ++ sent ->
  In q sent ->
  is_gate_request q = false ->
  gate_conditions this h.
Proof.
  intros G S I D. specialize (G h).
  destruct (verifyDeviceIsReady this h) as [[[]|e] hg] eqn:V.
  - destruct G as [-> _]. now apply verifyDeviceIsReady_ok_iff.
  - destruct G as [O (tg & -> & F)]. rewrite O in S. simpl in S.
    apply app_inv_head in S. subst sent.
    destruct I as [<-|I]; [discriminate D|].
    rewrite forallb_forall in F. rewrite (F _ I) in D. discriminate D.
Qed.

(** X3. Whatever [getPubkey], [sign] or [verifyAddress] sends beyond
    gate requests, it sends only when the gate's conditions hold in the
    history of the call; when they do not hold the call fails and has
    sent gate requests only. *)
Theorem data_request_needs_conditions (this : LaunchpadLedger)
    (fromUtf8 : list byte -> Result string)
    (fromDer_toFixedLength : list byte -> Result (list byte))
    (message : list byte) (hdPath : option HdPath) (shown : HdPath) (h : History) :
  (forall sent q,
      (snd (getPubkey this hdPath h) = h ++ sent
       \/ snd (sign fromUtf8 fromDer_toFixedLength this message hdPath h) = h ++ sent
       \/ snd (verifyAddress this shown h) = h ++ sent) ->
      In q sent ->
      is_gate_request q = false ->
      gate_conditions this h)
  /\ (~ gate_conditions this h ->
      exists e tg,
        forallb is_gate_request tg = true
        /\ getPubkey this hdPath h = (Throw e, h ++ ReqAppInfo :: tg)
        /\ sign fromUtf8 fromDer_toFixedLength this message hdPath h
           = (Throw e, h ++ ReqAppInfo :: tg)
        /\ verifyAddress this shown h = (Throw e, h ++ ReqAppInfo :: tg)).
Proof.
  split.
  - intros sent q [S|[S|S]] I D.
    + exact (gated_data_request _ _ _ _ _ (getPubkey_gated this hdPath) S I D).
    + exact (gated_data_request _ _ _ _ _
               (sign_gated fromUtf8 fromDer_toFixedLength this message hdPath) S I D).
    + exact (gated_data_request _ _ _ _ _ (verifyAddress_gated this shown) S I D).
  - intros N.
    destruct (verifyDeviceIsReady_cases this h) as [(e & tg & C & F)|C].
    + pose proof (getPubkey_gated this hdPath h) as GK.
      pose proof (sign_gated fromUtf8 fromDer_toFixedLength this message hdPath h) as GS.
      pose proof (verifyAddress_gated this shown h) as GV.
      rewrite C in GK, GS, GV.
      destruct GK as [K _], GS as [S _], GV as [V _].
      exists e, tg. auto.
    + exfalso. apply N. now apply verifyDeviceIsReady_ok_iff.
Qed.

Lemma data_request_needs_conditions_witness :
  gate_conditions (constructor (persistence_at (1, 2, 0)%N) None) []
  /\ exists e tg,
      forallb is_gate_request tg = true
      /\ getPubkey (constructor (showing "Bitcoin") None) None []
         = (Throw e, [] ++ ReqAppInfo :: tg)
      /\ sign toy_fromUtf8 toy_fromDer (constructor (showing "Bitcoin") None)
           [x68; x69] None []
         = (Throw e, [] ++ ReqAppInfo :: tg)
      /\ verifyAddress (constructor (showing "Bitcoin") None) persistenceHdPath []
         = (Throw e, [] ++ ReqAppInfo :: tg).
Proof.
  split.
  - apply (proj1 (data_request_needs_conditions
                    (constructor (persistence_at (1, 2, 0)%N) None)
                    toy_fromUtf8 toy_fromDer [x68; x69] None persistenceHdPath [])
             (key_round persistenceHdPath) (ReqPublicKey [44; 750; 0; 0; 0]%Z)).
    + left. reflexivity.
    + simpl. auto.
    + reflexivity.
  - apply (proj2 (data_request_needs_conditions
                    (constructor (showing "Bitcoin") None)
                    toy_fromUtf8 toy_fromDer [x68; x69] None persistenceHdPath [])).
    intros (A & _). destruct A as [_ A]. discriminate A.
Defined.

(** X4. A session that does not allow test mode, talking to a device
    whose version responses all carry the test-mode flag, never gets as
    far as a key, signature or address request: each of the three
    operations fails, having sent gate requests only. *)
Theorem test_mode_never_yields_data (this : LaunchpadLedger)
    (fromUtf8 : list byte -> Result string)
    (fromDer_toFixedLength : list byte -> Result (list byte)) :
  testModeAllowed this = false ->
  (forall h', test_mode (getVersion (app this) h') = true) ->
  forall (message : list byte) (hdPath : option HdPath) (shown : HdPath)
         (h : History),
  exists e tg,
    forallb is_gate_request tg = true
    /\ getPubkey this hdPath h = (Throw e, h ++ ReqAppInfo :: tg)
    /\ sign fromUtf8 fromDer_toFixedLength this message hdPath h
       = (Throw e, h ++ ReqAppInfo :: tg)
    /\ verifyAddress this shown h = (Throw e, h ++ ReqAppInfo :: tg).
Proof.
  intros TA TM message hdPath shown h.
  destruct (verifyDeviceIsReady_cases this h) as [(e & tg & C & F)|C].
  - pose proof (getPubkey_gated this hdPath h) as GK.
    pose proof (sign_gated fromUtf8 fromDer_toFixedLength this message hdPath h) as GS.
    pose proof (verifyAddress_gated this shown h) as GV.
    rewrite C in GK, GS, GV.
    destruct GK as [K _], GS as [S _], GV as [V _].
    exists e, tg. auto.
  - apply verifyDeviceIsReady_ok_iff in C.
    destruct C as (_ & (_ & [M|M] & _) & _); [rewrite TM in M|rewrite TA in M];
      discriminate M.
Qed.

Lemma test_mode_never_yields_data_witness :
  exists e tg,
    forallb is_gate_request tg = true
    /\ getPubkey (constructor persistence_test_build None) None []
       = (Throw e, [] ++ ReqAppInfo :: tg)
    /\ sign toy_fromUtf8 toy_fromDer (constructor persistence_test_build None)
         [x68; x69] None []
       = (Throw e, [] ++ ReqAppInfo :: tg)
    /\ verifyAddress (constructor persistence_test_build None) persistenceHdPath []
       = (Throw e, [] ++ ReqAppInfo :: tg).
Proof.
  apply (test_mode_never_yields_data (constructor persistence_test_build None)
           toy_fromUtf8 toy_fromDer).
  - reflexivity.
  - intros h'. reflexivity.
Defined.

(** ** The rejection message *)

(** X5. The caller's rejection message matters in one case only: unless
    the locked flag is not set and the error text is exactly
    "Transaction rejected", error translation gives the same outcome for
    every rejection message, supplied or not. *)
Theorem handleLedgerErrors_message_irrelevant (response : ErrorResponse)
    (m m' : option string) :
  device_locked response = Some true
  \/ error_message response <> Some "Transaction rejected" ->
  handleLedgerErrors response m = handleLedgerErrors response m'.
Proof.
  intros [L|N].
  - now rewrite !(handleLedgerErrors_locked _ _ L).
  - unfold handleLedgerErrors.
    destruct (default_to false (device_locked response)); [reflexivity|].
    destruct (error_message response) as [text|]; [|reflexivity].
    cbn [default_to]. case_strings; try reflexivity.
    subst. now contradiction N.
Qed.

Lemma handleLedgerErrors_message_irrelevant_witness :
  handleLedgerErrors locked_and_rejected (Some "Declined on the device")
  = handleLedgerErrors locked_and_rejected None
  /\ handleLedgerErrors (mkErrorResponse (Some "Command not allowed") None)
       (Some "Declined on the device")
     = handleLedgerErrors (mkErrorResponse (Some "Command not allowed") None) None.
Proof.
  split.
  - apply handleLedgerErrors_message_irrelevant. left. reflexivity.
  - apply handleLedgerErrors_message_irrelevant. right. discriminate.
Defined.

(** X6. A key request or an address display that the user rejects on an
    unlocked device fails with the generic message "Request was rejected
    by the user": only [sign] supplies a message of its own. *)
Theorem rejected_key_or_address_request (this : LaunchpadLedger) (h h1 : History) :
  verifyDeviceIsReady this h = (Ok tt, h1) ->
  (forall hdPath path,
      unharden_arg (hdPathToUse this hdPath) = Ok path ->
      error_message (publickey_status (publicKey (app this) h1 path))
      = Some "Transaction rejected" ->
      device_locked (publickey_status (publicKey (app this) h1 path)) <> Some true ->
      getPubkey this hdPath h
      = (Throw (Error "Request was rejected by the user"), h1 ++ [ReqPublicKey path]))
  /\ (forall hdPath,
        let response :=
          showAddressAndPubKey (app this) h1 (unharden hdPath) "persistence" in
        error_message (address_status response) = Some "Transaction rejected" ->
        device_locked (address_status response) <> Some true ->
        verifyAddress this hdPath h
        = (Throw (Error "Request was rejected by the user"),
           h1 ++ [ReqShowAddressAndPubKey (unharden hdPath) "persistence"])).
Proof.
  intros G. split.
  - intros hdPath path P E L.
    rewrite (getPubkey_run _ _ _ _ _ _ G P). cbv zeta.
    rewrite (handleLedgerErrors_row _ None "Transaction rejected"
               (Error "Request was rejected by the user") L E); [reflexivity|].
    simpl. auto.
  - intros hdPath response E L. subst response.
    rewrite (verifyAddress_run _ _ _ _ _ G). cbv zeta.
    rewrite (handleLedgerErrors_row _ None "Transaction rejected"
               (Error "Request was rejected by the user") L E); [reflexivity|].
    simpl. auto.
Qed.

Lemma rejected_key_or_address_request_witness :
  getPubkey (constructor rejecting_keys None) None []
  = (Throw (Error "Request was rejected by the user"),
     [ReqAppInfo; ReqGetVersion; ReqAppInfo] ++ [ReqPublicKey [44; 750; 0; 0; 0]%Z]).
Proof.
  apply (proj1 (rejected_key_or_address_request (constructor rejecting_keys None)
                  [] [ReqAppInfo; ReqGetVersion; ReqAppInfo] eq_refl)
           None [44; 750; 0; 0; 0]%Z).
  - reflexivity.
  - reflexivity.
  - discriminate.
Defined.

(** ** What [sign] asks the device *)

Lemma sign_history fromUtf8 fromDer_toFixedLength this message hdPath h :
  (exists e tg,
      sign fromUtf8 fromDer_toFixedLength this message hdPath h
      = (Throw e, h ++ ReqAppInfo :: tg)
      /\ forallb is_gate_request tg = true)
  \/ (gate_conditions this h
      /\ ((exists path text,
              unharden_arg (hdPathToUse this hdPath) = Ok path
              /\ fromUtf8 message = Ok text
              /\ snd (sign fromUtf8 fromDer_toFixedLength this message hdPath h)
                 = h ++ gate_round ++ [ReqSign path text])
          \/ (exists e,
                 (unharden_arg (hdPathToUse this hdPath) = Throw e
                  \/ (exists path, unharden_arg (hdPathToUse this hdPath) = Ok path
                                   /\ fromUtf8 message = Throw e))
                 /\ sign fromUtf8 fromDer_toFixedLength this message hdPath h
                    = (Throw e, h ++ gate_round)))).
Proof.
  destruct (verifyDeviceIsReady_cases this h) as [(e & tg & C & F)|C].
  - left. exists e, tg. split; [|exact F].
    unfold sign. now apply then_throw.
  - right. split; [now apply verifyDeviceIsReady_ok_iff|].
    unfold sign. rewrite (then_ok _ _ _ _ _ C). unfold_promise.
    destruct (unharden_arg _) as [path|e]; [|right; exists e; auto].
    destruct (fromUtf8 message) as [text|e] eqn:U.
    + left. exists path, text. repeat split.
      destruct (handleLedgerErrors _ _); simpl; now rewrite <- app_assoc.
    + right. exists e. split; [right; now exists path|reflexivity].
Qed.

(** X7. [sign] asks the device to sign only the decoded message, under
    the resolved and unhardened path, and only when the gate's conditions
    hold; when the message cannot be decoded the call fails with the
    decoder's failure right after the gate and no signing request is
    sent. *)
Theorem sign_requests (fromUtf8 : list byte -> Result string)
    (fromDer_toFixedLength : list byte -> Result (list byte))
    (this : LaunchpadLedger) (message : list byte) (hdPath : option HdPath)
    (h : History) :
  (forall sent path text,
      snd (sign fromUtf8 fromDer_toFixedLength this message hdPath h) = h ++ sent ->
      In (ReqSign path text) sent ->
      fromUtf8 message = Ok text
      /\ unharden_arg (hdPathToUse this hdPath) = Ok path
      /\ gate_conditions this h
      /\ sent = [ReqAppInfo; ReqGetVersion; ReqAppInfo; ReqSign path text])
  /\ (forall e h1 path,
        verifyDeviceIsReady this h = (Ok tt, h1) ->
        unharden_arg (hdPathToUse this hdPath) = Ok path ->
        fromUtf8 message = Throw e ->
        sign fromUtf8 fromDer_toFixedLength this message hdPath h = (Throw e, h1)).
Proof.
  split.
  - intros sent path text S I.
    destruct (sign_history fromUtf8 fromDer_toFixedLength this message hdPath h)
      as [(e & tg & E & F)|[G [(p & t & P & U & E)|(e & _ & E)]]].
    + rewrite E in S. simpl in S. apply app_inv_head in S. subst sent.
      destruct I as [I|I]; [discriminate I|].
      rewrite forallb_forall in F. specialize (F _ I). discriminate F.
    + rewrite E in S. apply app_inv_head in S. subst sent.
      simpl in I. destruct I as [I|[I|[I|[I|[]]]]]; try discriminate I.
      injection I as <- <-. auto.
    + rewrite E in S. simpl in S. apply app_inv_head in S. subst sent.
      simpl in I. destruct I as [I|[I|[I|[]]]]; discriminate I.
  - intros e h1 path G P U. unfold sign.
    rewrite (then_ok _ _ _ _ _ G), P. unfold_promise. now rewrite U.
Qed.

Lemma sign_requests_witness :
  toy_fromUtf8 [x68; x69] = Ok "hi"
  /\ sign failing_fromUtf8 toy_fromDer (constructor (persistence_at (1, 2, 0)%N) None)
       [xff] None []
     = (Throw (Error "Invalid UTF8 string"), [ReqAppInfo; ReqGetVersion; ReqAppInfo]).
Proof.
  split.
  - apply (proj1 (sign_requests toy_fromUtf8 toy_fromDer
                    (constructor (persistence_at (1, 2, 0)%N) None) [x68; x69] None [])
             [ReqAppInfo; ReqGetVersion; ReqAppInfo; ReqSign [44; 750; 0; 0; 0]%Z "hi"]
             [44; 750; 0; 0; 0]%Z "hi").
    + reflexivity.
    + simpl. auto.
  - apply (proj2 (sign_requests failing_fromUtf8 toy_fromDer
                    (constructor (persistence_at (1, 2, 0)%N) None) [xff] None [])
             (Error "Invalid UTF8 string") [ReqAppInfo; ReqGetVersion; ReqAppInfo]
             [44; 750; 0; 0; 0]%Z).
    + reflexivity.
    + reflexivity.
    + reflexivity.
Defined.

(** ** What the configuration does not touch *)

(** X8. With an explicit path, [getPubkey] and [sign] ignore the
    configured paths, and so do the gate and [verifyAddress]; none of them
    uses the address prefix.  Two sessions on the same device with the
    same test-mode policy behave alike in all four. *)
Theorem explicit_path_ignores_configuration
    (fromUtf8 : list byte -> Result string)
    (fromDer_toFixedLength : list byte -> Result (list byte))
    (this this' : LaunchpadLedger) (message : list byte) (hdPath : HdPath)
    (h : History) :
  app this = app this' ->
  testModeAllowed this = testModeAllowed this' ->
  verifyDeviceIsReady this h = verifyDeviceIsReady this' h
  /\ getPubkey this (Some hdPath) h = getPubkey this' (Some hdPath) h
  /\ sign fromUtf8 fromDer_toFixedLength this message (Some hdPath) h
     = sign fromUtf8 fromDer_toFixedLength this' message (Some hdPath) h
  /\ verifyAddress this hdPath h = verifyAddress this' hdPath h.
Proof.
  destruct this as [tm paths pre dev], this' as [tm' paths' pre' dev'].
  simpl. intros <- <-. repeat split.
Qed.

Lemma explicit_path_ignores_configuration_witness :
  getPubkey (constructor (persistence_at (1, 2, 0)%N) (Some no_paths))
    (Some second_account) []
  = getPubkey (constructor (persistence_at (1, 2, 0)%N) None)
      (Some second_account) [].
Proof.
  apply (explicit_path_ignores_configuration toy_fromUtf8 toy_fromDer
           (constructor (persistence_at (1, 2, 0)%N) (Some no_paths))
           (constructor (persistence_at (1, 2, 0)%N) None)
           [x68; x69] second_account []).
  - reflexivity.
  - reflexivity.
Defined.

(** ** Address display *)

(** X9. [verifyAddress] asks the device to show the address of the
    unhardened path under the fixed prefix "persistence", whatever prefix
    the session was configured with, and only when the gate's conditions
    hold; when it succeeds it returns the device's response as it is, a
    response that passed error translation. *)
Theorem verifyAddress_shows_persistence (this : LaunchpadLedger)
    (hdPath : HdPath) (h : History) :
  (forall sent path hrp,
      snd (verifyAddress this hdPath h) = h ++ sent ->
      In (ReqShowAddressAndPubKey path hrp) sent ->
      hrp = "persistence" /\ path = unharden hdPath /\ gate_conditions this h)
  /\ (forall response h',
        verifyAddress this hdPath h = (Ok response, h') ->
        response = showAddressAndPubKey (app this)
                     (h ++ [ReqAppInfo; ReqGetVersion; ReqAppInfo])
                     (unharden hdPath) "persistence"
        /\ handleLedgerErrors (address_status response) None = Ok tt
        /\ h' = h ++ [ReqAppInfo; ReqGetVersion; ReqAppInfo;
                      ReqShowAddressAndPubKey (unharden hdPath) "persistence"]).
Proof.
  destruct (verifyDeviceIsReady_cases this h) as [(e & tg & C & F)|C].
  - pose proof (verifyAddress_gated this hdPath h) as G. rewrite C in G.
    destruct G as [V _]. rewrite V. split.
    + intros sent path hrp S I. simpl in S. apply app_inv_head in S. subst sent.
      destruct I as [I|I]; [discriminate I|].
      rewrite forallb_forall in F. specialize (F _ I). discriminate F.
    + intros response h' E. discriminate E.
  - rewrite (verifyAddress_run _ _ _ _ _ C). cbv zeta. split.
    + intros sent path hrp S I. simpl in S. rewrite <- app_assoc in S.
      apply app_inv_head in S. subst sent.
      simpl in I. destruct I as [I|[I|[I|[I|[]]]]]; try discriminate I.
      injection I as <- <-. split; [reflexivity|split; [reflexivity|]].
      now apply verifyDeviceIsReady_ok_iff.
    + intros response h'.
      destruct (handleLedgerErrors _ _) as [[]|e] eqn:T; [|discriminate].
      intros [= <- <-]. now rewrite <- app_assoc.
Qed.

Lemma verifyAddress_shows_persistence_witness :
  "persistence" = "persistence"
  /\ [44; 750; 1; 0; 0]%Z = unharden second_account
  /\ gate_conditions
       (constructor (persistence_at (1, 2, 0)%N)
          (Some (mkLaunchpadLedgerOptions None (Some "cosmos") None))) [].
Proof.
  apply (proj1 (verifyAddress_shows_persistence
                  (constructor (persistence_at (1, 2, 0)%N)
                     (Some (mkLaunchpadLedgerOptions None (Some "cosmos") None)))
                  second_account [])
           [ReqAppInfo; ReqGetVersion; ReqAppInfo;
            ReqShowAddressAndPubKey [44; 750; 1; 0; 0]%Z "persistence"]
           [44; 750; 1; 0; 0]%Z "persistence").
  - reflexivity.
  - simpl. auto.
Defined.

(** ** Unhardened indices *)

Lemma unharden_path_of segments :
  Forall (fun s : bool * Z => (0 <= snd s < 2 ^ 31)%Z) segments ->
  unharden (path_of segments) = map snd segments.
Proof.
  induction 1 as [|[hard i] rest [L U] _ IH]; [reflexivity|].
  simpl in L, U.
  change (unharden (path_of ((hard, i) :: rest)))
    with (unharden [if hard then hardened i else normal i]
          ++ unharden (path_of rest)).
  rewrite IH. destruct hard.
  - now rewrite unharden_hardened.
  - now rewrite unharden_normal.
Qed.

(** X10. [unharden] keeps the number of segments, and every index it
    gives for a 32-bit segment is a non-negative number below 2^31, so
    what is sent to the device never carries a hardening bit. *)
Theorem unharden_bounds (hdPath : HdPath) :
  Forall is_uint32 hdPath ->
  List.length (unharden hdPath) = List.length hdPath
  /\ Forall (fun index => (0 <= index < 2 ^ 31)%Z) (unharden hdPath).
Proof.
  intros W. split; [apply length_map|].
  unfold unharden. apply Forall_map.
  eapply Forall_impl; [|exact W].
  intros n [L U]. unfold isHardened.
  destruct (Z.leb_spec (2 ^ 31) (toNumber n)); lia.
Qed.

Lemma unharden_bounds_witness :
  List.length (unharden persistenceHdPath) = List.length persistenceHdPath
  /\ Forall (fun index => (0 <= index < 2 ^ 31)%Z) (unharden persistenceHdPath).
Proof.
  apply unharden_bounds.
  repeat (apply Forall_cons; [unfold is_uint32; simpl; lia|]). apply Forall_nil.
Defined.

(** X11. Hardening flags do not reach the device: two paths with the same
    indices, whatever their flags, give the same key request, the same
    address display and the same signing request, with the same
    results. *)
Theorem hardening_flags_ignored (fromUtf8 : list byte -> Result string)
    (fromDer_toFixedLength : list byte -> Result (list byte))
    (this : LaunchpadLedger) (message : list byte)
    (segments segments' : list (bool * Z)) (h : History) :
  Forall (fun s : bool * Z => (0 <= snd s < 2 ^ 31)%Z) segments ->
  Forall (fun s : bool * Z => (0 <= snd s < 2 ^ 31)%Z) segments' ->
  map snd segments = map snd segments' ->
  getPubkey this (Some (path_of segments)) h
  = getPubkey this (Some (path_of segments')) h
  /\ sign fromUtf8 fromDer_toFixedLength this message (Some (path_of segments)) h
     = sign fromUtf8 fromDer_toFixedLength this message (Some (path_of segments')) h
  /\ verifyAddress this (path_of segments) h
     = verifyAddress this (path_of segments') h.
Proof.
  intros B B' E.
  assert (U : unharden (path_of segments) = unharden (path_of segments'))
    by now rewrite !unharden_path_of, E.
  unfold getPubkey, sign, verifyAddress, hdPathToUse, unharden_arg.
  now rewrite U.
Qed.

Lemma hardening_flags_ignored_witness :
  getPubkey (constructor (persistence_at (1, 2, 0)%N) None)
    (Some (path_of [(true, 44); (true, 750); (true, 0); (false, 0); (false, 0)]%Z)) []
  = getPubkey (constructor (persistence_at (1, 2, 0)%N) None)
      (Some (path_of [(false, 44); (false, 750); (false, 0); (true, 0); (true, 0)]%Z)) [].
Proof.
  apply (hardening_flags_ignored toy_fromUtf8 toy_fromDer
           (constructor (persistence_at (1, 2, 0)%N) None) [x68; x69]
           [(true, 44); (true, 750); (true, 0); (false, 0); (false, 0)]%Z
           [(false, 44); (false, 750); (false, 0); (true, 0); (true, 0)]%Z []).
  - repeat (apply Forall_cons; [simpl; lia|]). apply Forall_nil.
  - repeat (apply Forall_cons; [simpl; lia|]). apply Forall_nil.
  - reflexivity.
Defined.

(** ** Failures of the gate *)






(** ** Building a path from numbers *)

Lemma append_empty_r (s : string) : (s ++ "")%string = s.
Proof. induction s as [|c s IH]; simpl; [reflexivity|now rewrite IH]. Qed.

Lemma append_snoc (acc : string) c (ds : string) :
  ((acc ++ String c "") ++ ds)%string = (acc ++ String c ds)%string.
Proof. induction acc as [|a acc IH]; simpl; [reflexivity|now rewrite IH]. Qed.

Lemma string_of_uint_all_digits d : all_digits (NilEmpty.string_of_uint d).
Proof. induction d; simpl; auto. Qed.

Lemma number_toString_all_digits n : all_digits (number_toString n).
Proof. apply string_of_uint_all_digits. Qed.

Lemma number_toString_nonempty n : number_toString n <> EmptyString.
Proof.
  unfold number_toString. intros E.
  assert (N.to_uint n = Nil) as Hnil by (destruct (N.to_uint n); now try discriminate E).
  destruct n as [|p]; [discriminate Hnil|].
  exact (DecimalPos.Unsigned.to_uint_nonnil p Hnil).
Qed.

Lemma stringToPath_loop_digits ds :
  forall acc rest out,
    all_digits ds ->
    stringToPath_loop (ds ++ rest) (Some acc) out
    = stringToPath_loop rest (Some (acc ++ ds)%string) out.
Proof.
  induction ds as [|c ds IH]; intros acc rest out D.
  - simpl. now rewrite append_empty_r.
  - destruct D as [Dc Dr]. simpl append. cbn [stringToPath_loop].
    rewrite Dc, (IH _ _ _ Dr), append_snoc. reflexivity.
Qed.

Lemma push_component_number n apostrophe out :
  (Z.of_N n < 2 ^ 31)%Z ->
  push_component (number_toString n) apostrophe out
  = Ok (out ++ [if apostrophe then hardened (Z.of_N n) else normal (Z.of_N n)]).
Proof.
  intros B. unfold push_component, number_toString.
  rewrite NilEmpty.usu. cbv zeta. rewrite DecimalN.Unsigned.of_to.
  destruct (Z.leb_spec (2 ^ 31) (Z.of_N n)); [lia|reflexivity].
Qed.

(** A component [/<n>'] read between two components. *)
Lemma stringToPath_loop_hardened n rest out :
  (Z.of_N n < 2 ^ 31)%Z ->
  stringToPath_loop (String "/" (number_toString n ++ String "'" rest)) None out
  = stringToPath_loop rest None (out ++ [hardened (Z.of_N n)]).
Proof.
  intros B. cbn [stringToPath_loop]. change (Ascii.eqb "/" "/") with true. cbv iota.
  rewrite (stringToPath_loop_digits _ _ _ _ (number_toString_all_digits n)).
  change (EmptyString ++ number_toString n)%string with (number_toString n).
  cbn [stringToPath_loop]. change (is_digit "'") with false. cbv iota.
  pose proof (number_toString_nonempty n) as NE.
  pose proof (push_component_number n true out B) as P.
  destruct (number_toString n) as [|a s]; [contradiction|].
  change (Ascii.eqb "'" "'") with true. cbv iota. now rewrite P.
Qed.

(** A component [/<n>] followed by another component. *)
Lemma stringToPath_loop_normal n rest out :
  (Z.of_N n < 2 ^ 31)%Z ->
  stringToPath_loop (String "/" (number_toString n ++ String "/" rest)) None out
  = stringToPath_loop (String "/" rest) None (out ++ [normal (Z.of_N n)]).
Proof.
  intros B. cbn [stringToPath_loop]. change (Ascii.eqb "/" "/") with true. cbv iota.
  rewrite (stringToPath_loop_digits _ _ _ _ (number_toString_all_digits n)).
  change (EmptyString ++ number_toString n)%string with (number_toString n).
  cbn [stringToPath_loop]. change (is_digit "/") with false. cbv iota.
  pose proof (number_toString_nonempty n) as NE.
  pose proof (push_component_number n false out B) as P.
  destruct (number_toString n) as [|a s]; [contradiction|].
  change (Ascii.eqb "/" "'") with false. cbv iota. rewrite P.
  change (Ascii.eqb "/" "/") with true. reflexivity.
Qed.

(** A component [/<n>] at the end of the string. *)
Lemma stringToPath_loop_last n out :
  (Z.of_N n < 2 ^ 31)%Z ->
  stringToPath_loop (String "/" (number_toString n)) None out
  = Ok (out ++ [normal (Z.of_N n)]).
Proof.
  intros B. cbn [stringToPath_loop]. change (Ascii.eqb "/" "/") with true. cbv iota.
  rewrite <- (append_empty_r (number_toString n)) at 1.
  rewrite (stringToPath_loop_digits _ _ _ _ (number_toString_all_digits n)).
  change (EmptyString ++ number_toString n)%string with (number_toString n).
  cbn [stringToPath_loop].
  pose proof (number_toString_nonempty n) as NE.
  pose proof (push_component_number n false out B) as P.
  destruct (number_toString n) as [|a s]; [contradiction|exact P].
Qed.

(** X13. Given the decimal strings of an account number, an address
    index and a coin type, all below 2^31, [makeHdPath] builds the path
    44', coin type', account', 0, index: the coin type, its third
    argument, comes second in the path.  Unhardened, the path is the
    five plain numbers. *)
Theorem makeHdPath_numbers (accountNumber addressIndex coinType : N) :
  (Z.of_N accountNumber < 2 ^ 31)%Z ->
  (Z.of_N addressIndex < 2 ^ 31)%Z ->
  (Z.of_N coinType < 2 ^ 31)%Z ->
  makeHdPath (Some (number_toString accountNumber))
    (Some (number_toString addressIndex)) (Some (number_toString coinType))
  = Ok [hardened 44; hardened (Z.of_N coinType); hardened (Z.of_N accountNumber);
        normal 0; normal (Z.of_N addressIndex)]
  /\ unharden [hardened 44; hardened (Z.of_N coinType);
               hardened (Z.of_N accountNumber); normal 0;
               normal (Z.of_N addressIndex)]
     = [44; Z.of_N coinType; Z.of_N accountNumber; 0; Z.of_N addressIndex]%Z.
Proof.
  intros A I C. split.
  - unfold makeHdPath. cbn [default_to].
    change (stringToPath_loop
              (String "/" (number_toString 44 ++ String "'"
                 (String "/" (number_toString coinType ++ String "'"
                    (String "/" (number_toString accountNumber ++ String "'"
                       (String "/" (number_toString 0 ++ String "/"
                          (number_toString addressIndex)))))))))
              None []
            = Ok [hardened 44; hardened (Z.of_N coinType);
                  hardened (Z.of_N accountNumber); normal 0;
                  normal (Z.of_N addressIndex)]).
    rewrite (stringToPath_loop_hardened 44) by (simpl; lia).
    rewrite (stringToPath_loop_hardened coinType) by exact C.
    rewrite (stringToPath_loop_hardened accountNumber) by exact A.
    rewrite (stringToPath_loop_normal 0) by (simpl; lia).
    rewrite (stringToPath_loop_last addressIndex) by exact I.
    reflexivity.
  - apply (unharden_path_of
             [(true, 44); (true, Z.of_N coinType); (true, Z.of_N accountNumber);
              (false, 0); (false, Z.of_N addressIndex)]%Z).
    repeat (apply Forall_cons; [simpl; lia|]). apply Forall_nil.
Qed.

Lemma makeHdPath_numbers_witness :
  makeHdPath (Some "3") (Some "12") (Some "118")
  = Ok [hardened 44; hardened 118; hardened 3; normal 0; normal 12]
  /\ unharden [hardened 44; hardened 118; hardened 3; normal 0; normal 12]
     = [44; 118; 3; 0; 12]%Z.
Proof.
  apply (makeHdPath_numbers 3 12 118); simpl; lia.
Defined.

(** ** Sessions without a path, and with exactly one *)

(** X14. When no path is configured, the calls that rely on the default
    path, [getPubkey()], [sign(message)] and [getCosmosAddress()], still
    run the gate; once it has passed they stop on the missing path with a
    [TypeError], and no key or signing request is sent. *)
Theorem default_path_missing (fromUtf8 : list byte -> Result string)
    (fromDer_toFixedLength : list byte -> Result (list byte))
    (getBech32FromPK : string -> list byte -> Result string)
    (this : LaunchpadLedger) (message : list byte) (h h1 : History) :
  hdPaths this = [] ->
  verifyDeviceIsReady this h = (Ok tt, h1) ->
  h1 = h ++ [ReqAppInfo; ReqGetVersion; ReqAppInfo]
  /\ exists m,
      getPubkey this None h = (Throw (TypeError m), h1)
      /\ sign fromUtf8 fromDer_toFixedLength this message None h
         = (Throw (TypeError m), h1)
      /\ getCosmosAddress getBech32FromPK this None h = (Throw (TypeError m), h1).
Proof.
  intros E G. split.
  - destruct (verifyDeviceIsReady_cases this h) as [(e & tg & F & _)|P]; congruence.
  - eexists. split; [|split].
    + exact (getPubkey_no_default _ _ _ _ E G).
    + unfold sign, hdPathToUse. rewrite (then_ok _ _ _ _ _ G), E. reflexivity.
    + unfold getCosmosAddress. apply then_throw.
      exact (getPubkey_no_default _ _ _ _ E G).
Qed.

Lemma default_path_missing_witness :
  [ReqAppInfo; ReqGetVersion; ReqAppInfo] = [] ++ [ReqAppInfo; ReqGetVersion; ReqAppInfo]
  /\ exists m,
      getPubkey (constructor (persistence_at (1, 2, 0)%N) (Some no_paths)) None []
      = (Throw (TypeError m), [ReqAppInfo; ReqGetVersion; ReqAppInfo])
      /\ sign toy_fromUtf8 toy_fromDer
           (constructor (persistence_at (1, 2, 0)%N) (Some no_paths)) [x68; x69] None []
         = (Throw (TypeError m), [ReqAppInfo; ReqGetVersion; ReqAppInfo])
      /\ getCosmosAddress toy_bech32
           (constructor (persistence_at (1, 2, 0)%N) (Some no_paths)) None []
         = (Throw (TypeError m), [ReqAppInfo; ReqGetVersion; ReqAppInfo]).
Proof.
  apply (default_path_missing toy_fromUtf8 toy_fromDer toy_bech32
           (constructor (persistence_at (1, 2, 0)%N) (Some no_paths)) [x68; x69] []).
  - reflexivity.
  - reflexivity.
Defined.

Lemma length_key_rounds paths :
  List.length (flat_map key_round paths) = (4 * List.length paths)%nat.
Proof.
  induction paths as [|p rest IH]; [reflexivity|].
  cbn [flat_map]. rewrite length_app, IH. simpl. lia.
Qed.

(** X15. A successful [getPubkeys] costs four round trips per configured
    path: the three requests of the gate, run again for every path, and
    the key request. *)
Theorem getPubkeys_round_trips (this : LaunchpadLedger) (h h' : History)
    (pubkeys : list (list byte)) :
  getPubkeys this h = (Ok pubkeys, h') ->
  List.length h' = (List.length h + 4 * List.length (hdPaths this))%nat
  /\ h' = h ++ flat_map key_round (hdPaths this).
Proof.
  intros G. rewrite getPubkeys_sequential in G. apply sequential_ok in G.
  apply keys_in_order_history in G as [-> _].
  now rewrite length_app, length_key_rounds.
Qed.

Lemma getPubkeys_round_trips_witness :
  List.length (key_round persistenceHdPath ++ key_round second_account)
  = (List.length (@nil Request)
     + 4 * List.length
             (hdPaths (constructor (persistence_at (1, 2, 0)%N) (Some two_accounts))))%nat
  /\ key_round persistenceHdPath ++ key_round second_account
     = [] ++ flat_map key_round
               (hdPaths (constructor (persistence_at (1, 2, 0)%N) (Some two_accounts))).
Proof.
  apply (getPubkeys_round_trips
           (constructor (persistence_at (1, 2, 0)%N) (Some two_accounts)) []
           (key_round persistenceHdPath ++ key_round second_account)
           [key_of_path [44; 750; 0; 0; 0]%Z; key_of_path [44; 750; 1; 0; 0]%Z]).
  reflexivity.
Defined.

(** X16. For a session with exactly one configured path, which is what
    the default configuration gives, [getPubkeys] is [getPubkey()] with
    its result put in a list: same requests, same key, same failure. *)
Theorem getPubkeys_single_path (this : LaunchpadLedger) (hdPath : HdPath)
    (h : History) :
  hdPaths this = [hdPath] ->
  getPubkeys this h
  = (pubkey <- getPubkey this None ;; resolve [pubkey]) h.
Proof.
  intros E. rewrite getPubkeys_sequential, E. cbn [sequential_getPubkeys].
  unfold then_, resolve.
  rewrite (getPubkey_default this h hdPath) by now rewrite E.
  destruct (getPubkey this (Some hdPath) h) as [[pubkey|e] h1]; reflexivity.
Qed.

Lemma getPubkeys_single_path_witness :
  getPubkeys (constructor (persistence_at (1, 2, 0)%N) None) []
  = (pubkey <- getPubkey (constructor (persistence_at (1, 2, 0)%N) None) None ;;
     resolve [pubkey]) [].
Proof.
  apply (getPubkeys_single_path (constructor (persistence_at (1, 2, 0)%N) None)
           persistenceHdPath []).
  reflexivity.
Defined.

(** ** What a success means *)

(** X17. A key or a signature is returned only from a response that
    passed error translation, asked after the gate's conditions held:
    the key is the device's compressed key as it is, the signature is the
    fixed-length form of the device's DER signature, and the call has sent
    the gate's three requests and its own, nothing else. *)
Theorem success_means_translated (fromUtf8 : list byte -> Result string)
    (fromDer_toFixedLength : list byte -> Result (list byte))
    (this : LaunchpadLedger) (message : list byte) (hdPath : option HdPath)
    (h h' : History) :
  (forall pubkey,
      getPubkey this hdPath h = (Ok pubkey, h') ->
      gate_conditions this h
      /\ exists path,
          unharden_arg (hdPathToUse this hdPath) = Ok path
          /\ h' = h ++ [ReqAppInfo; ReqGetVersion; ReqAppInfo; ReqPublicKey path]
          /\ handleLedgerErrors
               (publickey_status (publicKey (app this) (h ++ gate_round) path)) None
             = Ok tt
          /\ pubkey = compressed_pk (publicKey (app this) (h ++ gate_round) path))
  /\ (forall fixed,
        sign fromUtf8 fromDer_toFixedLength this message hdPath h = (Ok fixed, h') ->
        gate_conditions this h
        /\ exists path text,
            unharden_arg (hdPathToUse this hdPath) = Ok path
            /\ fromUtf8 message = Ok text
            /\ h' = h ++ [ReqAppInfo; ReqGetVersion; ReqAppInfo; ReqSign path text]
            /\ handleLedgerErrors
                 (sign_status (sign_device (app this) (h ++ gate_round) path text))
                 (Some "Transaction signing request was rejected by the user")
               = Ok tt
            /\ fromDer_toFixedLength
                 (signature (sign_device (app this) (h ++ gate_round) path text))
               = Ok fixed).
Proof.
  destruct (verifyDeviceIsReady_cases this h) as [(e & tg & C & F)|C].
  - split; intros r R.
    + pose proof (getPubkey_gated this hdPath h) as G. rewrite C in G.
      destruct G as [G _]. congruence.
    + pose proof (sign_gated fromUtf8 fromDer_toFixedLength this message hdPath h) as G.
      rewrite C in G. destruct G as [G _]. congruence.
  - pose proof (proj1 (verifyDeviceIsReady_ok_iff this h) C) as Q.
    split; intros r R; (split; [exact Q|]).
    + unfold getPubkey in R. rewrite (then_ok _ _ _ _ _ C) in R.
      unfold_promise. fold gate_round in R.
      destruct (unharden_arg _) as [path|e]; [|discriminate R].
      exists path. split; [reflexivity|].
      destruct (handleLedgerErrors _ _) as [[]|e]; [|discriminate R].
      injection R as <- <-. unfold gate_round. rewrite <- app_assoc. auto.
    + unfold sign in R. rewrite (then_ok _ _ _ _ _ C) in R.
      unfold_promise. fold gate_round in R.
      destruct (unharden_arg _) as [path|e]; [|discriminate R].
      destruct (fromUtf8 message) as [text|e]; [|discriminate R].
      exists path, text. split; [reflexivity|]. split; [reflexivity|].
      destruct (handleLedgerErrors _ _) as [[]|e]; [|discriminate R].
      injection R as R <-. unfold gate_round. rewrite <- app_assoc. auto.
Qed.

Lemma success_means_translated_witness :
  gate_conditions (constructor (persistence_at (1, 2, 0)%N) None) []
  /\ exists path,
      unharden_arg (hdPathToUse (constructor (persistence_at (1, 2, 0)%N) None) None)
      = Ok path
      /\ key_round persistenceHdPath
         = [] ++ [ReqAppInfo; ReqGetVersion; ReqAppInfo; ReqPublicKey path]
      /\ handleLedgerErrors
           (publickey_status
              (publicKey (app (constructor (persistence_at (1, 2, 0)%N) None))
                 ([] ++ gate_round) path)) None
         = Ok tt
      /\ key_of_path [44; 750; 0; 0; 0]%Z
         = compressed_pk
             (publicKey (app (constructor (persistence_at (1, 2, 0)%N) None))
                ([] ++ gate_round) path).
Proof.
  apply (proj1 (success_means_translated toy_fromUtf8 toy_fromDer
                  (constructor (persistence_at (1, 2, 0)%N) None) [x68; x69] None
                  [] (key_round persistenceHdPath))
           (key_of_path [44; 750; 0; 0; 0]%Z)).
  reflexivity.
Defined.
